(** * USRP2 DSP front end: a shallow embedding of [host/lib/usrp/usrp2/dsp_impl.cpp]

    The file models the digital down-converter (DDC, receive) and digital
    up-converter (DUC, transmit) property handlers of [usrp2_impl]:
    the frequency-word computation, the rate validation, the CIC gain
    compensation, the stream-command encoding and the named-property
    get/set dispatch.

    Conventions.
    - A C++ [double] is an IEEE 754 binary64 value, [spec_float] of the
      Standard Library with [prec = 53] and [emax = 1024]; arithmetic is
      round-to-nearest-even, as the hardware does it.
    - A [size_t] is an [N]; a [boost::uint32_t] is a [Z] kept in
      [0, 2^32) by an explicit [mod]; [int] and [boost::int16_t]
      conversions are written out with their wrap-around.
    - A member function of [usrp2_impl] is a computation in the monad
      [M]: it takes the object's state and returns either a value or a
      thrown exception, together with the state as the call left it (a
      C++ exception does not roll back what was assigned before it). *)

From Stdlib Require Import ZArith NArith PArith Bool List String Ascii Lia.
From Stdlib Require Import Floats.SpecFloat.
From Stdlib Require Import QArith Qround.
Import ListNotations.

Local Open Scope Z_scope.

(** ** IEEE 754 binary64 *)

Module B64.

Definition prec : Z := 53.
Definition emax : Z := 1024.

Definition double : Type := spec_float.

Definition mul : double -> double -> double := SFmul prec emax.
Definition div : double -> double -> double := SFdiv prec emax.
Definition opp : double -> double := SFopp.
Definition abs : double -> double := SFabs.
Definition leb : double -> double -> bool := SFleb.
Definition ltb : double -> double -> bool := SFltb.
Definition eqb : double -> double -> bool := SFeqb.

(** [double(n)] for an integer [n]: the nearest binary64 value. *)
Definition of_Z (n : Z) : double := binary_normalize prec emax n 0 false.

Definition of_N (n : N) : double := of_Z (Z.of_N n).

(** [std::ceil]: the least integral value not below [x]. An integral
    value of magnitude below [2^53] is a binary64 value, so the result
    is exact; a negative argument in (-1, 0) gives [-0.0]. *)
Definition ceil (x : double) : double :=
  match x with
  | S754_finite s m e =>
      if 0 <=? e then x
      else
        let d := Z.pow 2 (- e) in
        let q := Z.pos m / d in
        let r := Z.pos m mod d in
        if s then (if q =? 0 then S754_zero true else of_Z (- q))
        else of_Z (if r =? 0 then q else q + 1)
  | _ => x
  end.

(** The integer nearest to the finite non-zero value [(-1)^s * m * 2^e],
    halfway cases away from zero. *)
Definition round_half_away (s : bool) (m : positive) (e : Z) : Z :=
  let mag :=
    if 0 <=? e then Z.pos m * Z.pow 2 e
    else (Z.pos m + Z.pow 2 (- e - 1)) / Z.pow 2 (- e) in
  if s then - mag else mag.

(** [std::pow(2, k)] for a [double] exponent [k] that [std::ceil]
    produced: an exact power of two for an integral [k], and the limits
    C's [pow] prescribes for the infinities and NaN. *)
Definition integral_value (x : double) : option Z :=
  match x with
  | S754_zero _ => Some 0
  | S754_finite s m e =>
      if 0 <=? e then Some (cond_Zopp s (Z.pos m * Z.pow 2 e))
      else if Z.pos m mod Z.pow 2 (- e) =? 0
           then Some (cond_Zopp s (Z.pos m / Z.pow 2 (- e)))
           else None
  | _ => None
  end.

Definition pow2 (k : double) : double :=
  match k with
  | S754_nan => S754_nan
  | S754_infinity true => S754_zero false
  | S754_infinity false => S754_infinity false
  | _ =>
      match integral_value k with
      | Some z => SFldexp prec emax (of_Z 1) z
      | None => S754_nan
      end
  end.

(** Same representation (not [==] of C, which [eqb] is). *)
Definition same (x y : double) : bool :=
  match x, y with
  | S754_zero a, S754_zero b | S754_infinity a, S754_infinity b => Bool.eqb a b
  | S754_nan, S754_nan => true
  | S754_finite a m e, S754_finite b n f =>
      Bool.eqb a b && Pos.eqb m n && Z.eqb e f
  | _, _ => false
  end.

(** [std::pow(x, 3)]: the cube, by two correctly rounded products (it is
    exact whenever the cube is a binary64 value). *)
Definition cube (x : double) : double := mul (mul x x) x.

End B64.

Abbreviation double := B64.double.

#[global] Arguments B64.of_Z : simpl never.
#[global] Arguments B64.of_N : simpl never.
#[global] Arguments B64.mul : simpl never.
#[global] Arguments B64.div : simpl never.
#[global] Arguments B64.leb : simpl never.
#[global] Arguments B64.ltb : simpl never.
#[global] Arguments B64.opp : simpl never.
#[global] Arguments B64.abs : simpl never.
#[global] Arguments B64.ceil : simpl never.
#[global] Arguments B64.pow2 : simpl never.
#[global] Arguments B64.cube : simpl never.

(** ** Fixed-width integers *)

Definition wrap32 (z : Z) : Z := z mod 2 ^ 32.
Definition to_uint16 (z : Z) : Z := z mod 2 ^ 16.
(** Conversion of an [int] to [boost::int16_t]: the low 16 bits, read as
    two's complement. *)
Definition to_int16 (z : Z) : Z := (z + 2 ^ 15) mod 2 ^ 16 - 2 ^ 15.

(** A 32-bit word read as two's complement. *)
Definition to_int32 (z : Z) : Z := (z + 2 ^ 31) mod 2 ^ 32 - 2 ^ 31.

Definition INT_MAX : Z := 2 ^ 31 - 1.
Definition INT_MIN : Z := - 2 ^ 31.

Definition bswap32 (x : Z) : Z :=
  Z.lor (Z.lor (Z.shiftl (Z.land x 255) 24)
               (Z.shiftl (Z.land (Z.shiftr x 8) 255) 16))
        (Z.lor (Z.shiftl (Z.land (Z.shiftr x 16) 255) 8)
               (Z.land (Z.shiftr x 24) 255)).

(** The four bytes of a 32-bit word, most significant first. *)
Definition be_bytes (x : Z) : list Z :=
  [Z.land (Z.shiftr x 24) 255; Z.land (Z.shiftr x 16) 255;
   Z.land (Z.shiftr x 8) 255; Z.land x 255].

(** ** Exceptions *)

Inductive exn : Type :=
| assert_throw_failed (expr : string)        (* ASSERT_THROW(expr) *)
| assert_has_failed (what : string) (elem : N) (* assert_has(..., elem, what) *)
| invalid_argument (what : string)           (* std::invalid_argument *)
| rounding_error                             (* boost::math::rounding_error *)
| bad_cast                                   (* wax::obj::as<T> on another type *)
| no_ctrl_response.                          (* the transport gave no reply *)

(** [boost::math::iround] (the source's [rint]): the nearest [int],
    halfway cases away from zero; a value that is not finite, or whose
    rounding is not an [int], raises [rounding_error]. *)
Definition iround (v : double) : exn + Z :=
  match v with
  | S754_zero _ => inr 0
  | S754_finite s m e =>
      let r := B64.round_half_away s m e in
      if (INT_MIN <=? r) && (r <=? INT_MAX) then inr r else inl rounding_error
  | _ => inl rounding_error
  end.

(** ** Data *)

Inductive dsp_prop_t : Type := DSP_PROP_NAME | DSP_PROP_OTHERS.

Inductive stream_mode_t : Type :=
| STREAM_MODE_START_CONTINUOUS
| STREAM_MODE_STOP_CONTINUOUS
| STREAM_MODE_NUM_SAMPS_AND_DONE
| STREAM_MODE_NUM_SAMPS_AND_MORE.

Record time_spec_t : Type := { secs : Z; ticks : Z }.

Record stream_cmd_t : Type := {
  stream_mode : stream_mode_t;
  num_samps : N;
  stream_now : bool;
  time_spec : time_spec_t
}.

(** The stream-command view of [usrp2_ctrl_data_t], fields as they sit in
    the host's memory (32-bit fields already passed through [htonl]). *)
Record usrp2_ctrl_data_t : Type := {
  id : Z;
  sc_now : Z;
  sc_secs : Z;
  sc_ticks : Z;
  sc_continuous : Z;
  sc_chain : Z;
  sc_num_samps : Z
}.

(** A dynamically typed [wax::obj]. *)
Inductive wax_obj : Type :=
| obj_dsp_prop (p : dsp_prop_t)
| obj_string (s : string)
| obj_size_t (n : N)
| obj_double (d : double)
| obj_prop_names (l : list string)
| obj_rates (l : list N)
| obj_stream_cmd (c : stream_cmd_t).

(** The DSP registers of [usrp2_regs.hpp] that the file writes. *)
Inductive reg : Type :=
| FR_DSP_RX_DECIM_RATE | FR_DSP_RX_SCALE_IQ | FR_DSP_RX_FREQ
| FR_DSP_TX_INTERP_RATE | FR_DSP_TX_SCALE_IQ | FR_DSP_TX_FREQ.

Definition reg_eqb (a b : reg) : bool :=
  match a, b with
  | FR_DSP_RX_DECIM_RATE, FR_DSP_RX_DECIM_RATE
  | FR_DSP_RX_SCALE_IQ, FR_DSP_RX_SCALE_IQ
  | FR_DSP_RX_FREQ, FR_DSP_RX_FREQ
  | FR_DSP_TX_INTERP_RATE, FR_DSP_TX_INTERP_RATE
  | FR_DSP_TX_SCALE_IQ, FR_DSP_TX_SCALE_IQ
  | FR_DSP_TX_FREQ, FR_DSP_TX_FREQ => true
  | _, _ => false
  end.

(** The object's state: the members [dsp_impl.cpp] reads and writes, and
    the device as the file sees it, that is the register writes made so
    far (oldest first), the control requests sent so far (oldest first)
    and the replies the device is going to give. *)
Record usrp2_impl : Type := {
  _rx_dsps : list string;
  _tx_dsps : list string;
  _ddc_decim : N;
  _ddc_freq : double;
  _duc_interp : N;
  _duc_freq : double;
  _allowed_decim_and_interp_rates : list N;
  pokes : list (reg * Z);
  ctrl_sent : list usrp2_ctrl_data_t;
  ctrl_replies : list usrp2_ctrl_data_t
}.

(** The stored configuration of the receive and of the transmit channel. *)
Record channel_config : Type := {
  rate : N;
  frequencyOffset : double;
  allowedRates : list N
}.

Definition rx_config (st : usrp2_impl) : channel_config :=
  {| rate := _ddc_decim st; frequencyOffset := _ddc_freq st;
     allowedRates := _allowed_decim_and_interp_rates st |}.

Definition tx_config (st : usrp2_impl) : channel_config :=
  {| rate := _duc_interp st; frequencyOffset := _duc_freq st;
     allowedRates := _allowed_decim_and_interp_rates st |}.

(** The value a register holds: the last one written to it. *)
Fixpoint last_write (r : reg) (l : list (reg * Z)) : option Z :=
  match l with
  | [] => None
  | (r', v) :: tl =>
      match last_write r tl with
      | Some w => Some w
      | None => if reg_eqb r r' then Some v else None
      end
  end.

Definition peek32 (r : reg) (st : usrp2_impl) : option Z := last_write r (pokes st).

(** ** The monad of member functions *)

Definition M (A : Type) : Type := usrp2_impl -> (exn + A) * usrp2_impl.

Definition ret {A} (a : A) : M A := fun st => (inr a, st).

Definition bind {A B} (c : M A) (k : A -> M B) : M B :=
  fun st =>
    match c st with
    | (inr a, st') => k a st'
    | (inl e, st') => (inl e, st')
    end.

Definition throw {A} (e : exn) : M A := fun st => (inl e, st).

Definition lift {A} (r : exn + A) : M A := fun st => (r, st).

Definition gets {A} (f : usrp2_impl -> A) : M A := fun st => (inr (f st), st).

Definition modify (f : usrp2_impl -> usrp2_impl) : M unit := fun st => (inr tt, f st).

Declare Scope cxx_scope.
Delimit Scope cxx_scope with cxx.
Notation "x <- c ;; k" := (bind c (fun x => k))
  (at level 61, c at next level, right associativity) : cxx_scope.
Notation "c ;; k" := (bind c (fun _ => k))
  (at level 61, right associativity) : cxx_scope.

(** Assignments to the members. *)
Definition set_rx_dsps (v : list string) (st : usrp2_impl) : usrp2_impl :=
  {| _rx_dsps := v; _tx_dsps := _tx_dsps st; _ddc_decim := _ddc_decim st;
     _ddc_freq := _ddc_freq st; _duc_interp := _duc_interp st;
     _duc_freq := _duc_freq st;
     _allowed_decim_and_interp_rates := _allowed_decim_and_interp_rates st;
     pokes := pokes st; ctrl_sent := ctrl_sent st; ctrl_replies := ctrl_replies st |}.

Definition set_tx_dsps (v : list string) (st : usrp2_impl) : usrp2_impl :=
  {| _rx_dsps := _rx_dsps st; _tx_dsps := v; _ddc_decim := _ddc_decim st;
     _ddc_freq := _ddc_freq st; _duc_interp := _duc_interp st;
     _duc_freq := _duc_freq st;
     _allowed_decim_and_interp_rates := _allowed_decim_and_interp_rates st;
     pokes := pokes st; ctrl_sent := ctrl_sent st; ctrl_replies := ctrl_replies st |}.

Definition set_ddc_decim (v : N) (st : usrp2_impl) : usrp2_impl :=
  {| _rx_dsps := _rx_dsps st; _tx_dsps := _tx_dsps st; _ddc_decim := v;
     _ddc_freq := _ddc_freq st; _duc_interp := _duc_interp st;
     _duc_freq := _duc_freq st;
     _allowed_decim_and_interp_rates := _allowed_decim_and_interp_rates st;
     pokes := pokes st; ctrl_sent := ctrl_sent st; ctrl_replies := ctrl_replies st |}.

Definition set_ddc_freq (v : double) (st : usrp2_impl) : usrp2_impl :=
  {| _rx_dsps := _rx_dsps st; _tx_dsps := _tx_dsps st; _ddc_decim := _ddc_decim st;
     _ddc_freq := v; _duc_interp := _duc_interp st;
     _duc_freq := _duc_freq st;
     _allowed_decim_and_interp_rates := _allowed_decim_and_interp_rates st;
     pokes := pokes st; ctrl_sent := ctrl_sent st; ctrl_replies := ctrl_replies st |}.

Definition set_duc_interp (v : N) (st : usrp2_impl) : usrp2_impl :=
  {| _rx_dsps := _rx_dsps st; _tx_dsps := _tx_dsps st; _ddc_decim := _ddc_decim st;
     _ddc_freq := _ddc_freq st; _duc_interp := v;
     _duc_freq := _duc_freq st;
     _allowed_decim_and_interp_rates := _allowed_decim_and_interp_rates st;
     pokes := pokes st; ctrl_sent := ctrl_sent st; ctrl_replies := ctrl_replies st |}.

Definition set_duc_freq (v : double) (st : usrp2_impl) : usrp2_impl :=
  {| _rx_dsps := _rx_dsps st; _tx_dsps := _tx_dsps st; _ddc_decim := _ddc_decim st;
     _ddc_freq := _ddc_freq st; _duc_interp := _duc_interp st;
     _duc_freq := v;
     _allowed_decim_and_interp_rates := _allowed_decim_and_interp_rates st;
     pokes := pokes st; ctrl_sent := ctrl_sent st; ctrl_replies := ctrl_replies st |}.

Definition set_pokes (v : list (reg * Z)) (st : usrp2_impl) : usrp2_impl :=
  {| _rx_dsps := _rx_dsps st; _tx_dsps := _tx_dsps st; _ddc_decim := _ddc_decim st;
     _ddc_freq := _ddc_freq st; _duc_interp := _duc_interp st;
     _duc_freq := _duc_freq st;
     _allowed_decim_and_interp_rates := _allowed_decim_and_interp_rates st;
     pokes := v; ctrl_sent := ctrl_sent st; ctrl_replies := ctrl_replies st |}.

Definition set_ctrl (sent replies : list usrp2_ctrl_data_t) (st : usrp2_impl) : usrp2_impl :=
  {| _rx_dsps := _rx_dsps st; _tx_dsps := _tx_dsps st; _ddc_decim := _ddc_decim st;
     _ddc_freq := _ddc_freq st; _duc_interp := _duc_interp st;
     _duc_freq := _duc_freq st;
     _allowed_decim_and_interp_rates := _allowed_decim_and_interp_rates st;
     pokes := pokes st; ctrl_sent := sent; ctrl_replies := replies |}.

(** A [double &] parameter: where the referenced object lives in the state. *)
Record double_ref : Type := {
  load : usrp2_impl -> double;
  store : double -> usrp2_impl -> usrp2_impl
}.

Definition ref_ddc_freq : double_ref := {| load := _ddc_freq; store := set_ddc_freq |}.
Definition ref_duc_freq : double_ref := {| load := _duc_freq; store := set_duc_freq |}.

(** ** A reference [std::log]

    The translation unit takes [std::log] from the C library. To run the
    model, this is a logarithm computed in 128-bit fixed point (the series
    of the inverse hyperbolic tangent, [ln t = 2 atanh ((t-1)/(t+1))], after
    the argument is scaled into [1, 2)) and rounded once to binary64. *)

Module RefLibm.

Definition P : Z := 128.
Definition one : Z := 2 ^ P.

(** [zpow / (2k+1) + zpow z2 / (2k+3) + ...], [n] terms, in units of [2^-P]. *)
Fixpoint atanh_terms (n : nat) (zpow z2 k : Z) : Z :=
  match n with
  | O => 0
  | S n' => zpow / (2 * k + 1) + atanh_terms n' (zpow * z2 / one) z2 (k + 1)
  end.

(** [atanh (num / den)] for [0 <= num / den <= 1/3]. *)
Definition atanh_fix (num den : Z) : Z :=
  let z := num * one / den in
  atanh_terms 42 z (z * z / one) 0.

Definition ln2_fix : Z := 2 * atanh_fix 1 3.

(** [ln (m * 2^e)]. *)
Definition ln_fix (m : positive) (e : Z) : Z :=
  let d := Z.log2 (Z.pos m) in
  (e + d) * ln2_fix + 2 * atanh_fix (Z.pos m - 2 ^ d) (Z.pos m + 2 ^ d).

Definition log (x : double) : double :=
  match x with
  | S754_nan => S754_nan
  | S754_zero _ => S754_infinity true
  | S754_infinity false => x
  | S754_infinity true => S754_nan
  | S754_finite true _ _ => S754_nan
  | S754_finite false m e => binary_normalize B64.prec B64.emax (ln_fix m e) (- P) false
  end.

End RefLibm.

(** ** The gain compensation as the specification words it

    Exact arithmetic on rationals: "compute [gain = c^3]; compute
    [scale = round(4096 * 2^ceil(log2(gain)) / (1.65 * gain))], clamped to
    the 16-bit signed range". *)

Module Spec.

Definition gain (c : N) : Z := Z.of_N c ^ 3.

Definition round_half_away (q : Q) : Z :=
  if Qle_bool 0 q then Qfloor (q + (1 # 2)) else Qceiling (q - (1 # 2)).

Definition clamp_int16 (z : Z) : Z := Z.max (- 32768) (Z.min 32767 z).

Definition scale (c : N) : Z :=
  let g := gain c in
  clamp_int16
    (round_half_away
       (inject_Z (4096 * 2 ^ Z.log2_up g) / ((165 # 100) * inject_Z g))%Q).

(** [c] is what "reduce [r] by repeated halving while [r > 128]" leaves:
    the first of [r, r/2, r/4, ...] that is not above 128. *)
Definition coarse_factor (r c : N) : Prop :=
  exists j : N,
    c = (r / 2 ^ j)%N /\ (c <= 128)%N
    /\ forall i : N, (i < j)%N -> (128 < r / 2 ^ i)%N.

End Spec.

(** ** The configuration invariant of the specification *)

(** "[rate] is in [allowedRates] always; [|frequencyOffset| <= clockRate/2]
    always." *)
Definition nyquist_ok (clockRate : double) (cfg : channel_config) : bool :=
  B64.leb (B64.abs (frequencyOffset cfg)) (B64.div clockRate (B64.of_Z 2)).

Definition config_invariant (clockRate : double) (cfg : channel_config) : Prop :=
  In (rate cfg) (allowedRates cfg) /\ nyquist_ok clockRate cfg = true.

(** ** A device to run the model on

    A USRP2 with its 100 MHz master clock, a little-endian host, sample
    control identifiers and a sample set of allowed rates. *)

Definition usrp2_master_clock : double := B64.of_Z 100000000.
Definition sample_id_send_stream_command : Z := 123.
Definition sample_id_got_stream_command : Z := 125.
Definition sample_rates : list N := [4; 8; 16; 32; 64; 128; 256; 512]%N.

(** The reply that acknowledges a stream command, as a little-endian host
    finds it in memory, and one that does not. *)
Definition sample_ack : usrp2_ctrl_data_t :=
  {| id := bswap32 sample_id_got_stream_command; sc_now := 0; sc_secs := 0;
     sc_ticks := 0; sc_continuous := 0; sc_chain := 0; sc_num_samps := 0 |}.
Definition sample_nak : usrp2_ctrl_data_t :=
  {| id := bswap32 77; sc_now := 0; sc_secs := 0;
     sc_ticks := 0; sc_continuous := 0; sc_chain := 0; sc_num_samps := 0 |}.

(** The object before [init_ddc_config] and [init_duc_config] ran; the
    device will acknowledge the first stream command. *)
Definition powered_on : usrp2_impl :=
  {| _rx_dsps := []; _tx_dsps := []; _ddc_decim := 0; _ddc_freq := B64.of_Z 0;
     _duc_interp := 0; _duc_freq := B64.of_Z 0;
     _allowed_decim_and_interp_rates := sample_rates;
     pokes := []; ctrl_sent := []; ctrl_replies := [sample_ack] |}.

(** The initial configuration: the object after both initialisations. *)
Definition configured : usrp2_impl :=
  {| _rx_dsps := ["ddc0"%string]; _tx_dsps := ["duc0"%string];
     _ddc_decim := 16; _ddc_freq := B64.of_Z 0;
     _duc_interp := 16; _duc_freq := B64.of_Z 0;
     _allowed_decim_and_interp_rates := sample_rates;
     pokes := [(FR_DSP_RX_DECIM_RATE, 16); (FR_DSP_RX_SCALE_IQ, 67109888);
               (FR_DSP_TX_INTERP_RATE, 16); (FR_DSP_TX_SCALE_IQ, 162662834)];
     ctrl_sent := [ {| id := bswap32 sample_id_send_stream_command; sc_now := 1;
                       sc_secs := 0; sc_ticks := 0; sc_continuous := 0;
                       sc_chain := 0; sc_num_samps := 0 |} ];
     ctrl_replies := [] |}.

(** The initial configuration on a device whose allowed set also holds 0. *)
Definition configured_with_zero : usrp2_impl :=
  {| _rx_dsps := _rx_dsps configured; _tx_dsps := _tx_dsps configured;
     _ddc_decim := 16; _ddc_freq := B64.of_Z 0;
     _duc_interp := 16; _duc_freq := B64.of_Z 0;
     _allowed_decim_and_interp_rates := (0 :: sample_rates)%N;
     pokes := pokes configured; ctrl_sent := ctrl_sent configured;
     ctrl_replies := [] |}.

(** ** Helpers that live in other files of the library *)

(** Modelled from the spec: [wax::obj::as<T>] (wax.hpp is not among the
    sources) gives the held value when it has the asked type ("values are
    typed per key") and throws otherwise. *)
Definition as_string (o : wax_obj) : M string :=
  match o with obj_string s => ret s | _ => throw bad_cast end.
Definition as_size_t (o : wax_obj) : M N :=
  match o with obj_size_t n => ret n | _ => throw bad_cast end.
Definition as_double (o : wax_obj) : M double :=
  match o with obj_double d => ret d | _ => throw bad_cast end.
Definition as_stream_cmd (o : wax_obj) : M stream_cmd_t :=
  match o with obj_stream_cmd c => ret c | _ => throw bad_cast end.

(** Modelled from the spec: the macro [ASSERT_THROW] of uhd/utils/assert.hpp
    (not among the sources) throws when its condition is false; the
    exception carries the text of the condition. *)
Definition ASSERT_THROW (cond : bool) (expr : string) : M unit :=
  if cond then ret tt else throw (assert_throw_failed expr).

(** Modelled from the spec: [assert_has] of uhd/utils/assert.hpp (not
    among the sources) "fails with UnsupportedRate if newRate is not in
    allowedRates"; the exception carries what was looked for. *)
Definition assert_has (iterable : list N) (elem : N) (what : string) : M unit :=
  if existsb (N.eqb elem) iterable then ret tt
  else throw (assert_has_failed what elem).

(** Modelled from the spec: [usrp2_impl::poke32] (in another file) is the
    register interface, "writeRegister(address: 32-bit, value: 32-bit) --
    no return value, assumed to always succeed". The value is converted to
    [boost::uint32_t] on the way in. *)
Definition poke32 (addr : reg) (data : Z) : M unit :=
  modify (fun st => set_pokes (pokes st ++ [(addr, wrap32 data)]) st).

(** Modelled from the spec: [usrp2_impl::ctrl_send_and_recv] (in another
    file) is the control channel, "exchange(request) -> response, blocking,
    single-outstanding"; an absent reply is a failure of the call. *)
Definition ctrl_send_and_recv (out_data : usrp2_ctrl_data_t) : M usrp2_ctrl_data_t :=
  fun st =>
    match ctrl_replies st with
    | [] => (inl no_ctrl_response, set_ctrl (ctrl_sent st ++ [out_data]) [] st)
    | in_data :: rest => (inr in_data, set_ctrl (ctrl_sent st ++ [out_data]) rest st)
    end.

(** [_rx_dsps["ddc0"] = ...]: the key is in the dictionary afterwards, once. *)
Definition dict_set (key : string) (d : list string) : list string :=
  if existsb (String.eqb key) d then d else d ++ [key].

(** ** The translation unit *)

Definition default_decim : N := 16.
Definition default_interp : N := 16.

(** [while(tmp_interp > 128) tmp_interp /= 2;] on a positive number: halving
    drops the lowest binary digit, so the loop is structural on the binary
    representation. *)
Fixpoint cic_interp_pos (p : positive) : positive :=
  if (128 <? p)%positive then
    match p with
    | xO q | xI q => cic_interp_pos q
    | xH => xH
    end
  else p.

Definition cic_interp (n : N) : N :=
  match n with
  | N0 => N0
  | Npos p => Npos (cic_interp_pos p)
  end.

Definition calculate_iq_scale_word (i q : Z) : Z :=
  wrap32 (Z.lor (Z.shiftl (to_uint16 i) 16) (Z.shiftl (to_uint16 q) 0)).

Section Usrp2.

(** What the translation unit takes from its surroundings. *)

(** [get_master_clock_freq()]. *)
Variable master_clock_freq : double.
(** [std::log] of the C library. *)
Variable std_log : double -> double.
(** Byte order of the host, which decides what [htonl] does. *)
Variable host_little_endian : bool.
(** The control identifiers of the firmware's common header. *)
Variable USRP2_CTRL_ID_SEND_STREAM_COMMAND_FOR_ME_BRO : Z.
Variable USRP2_CTRL_ID_GOT_THAT_STREAM_COMMAND_DUDE : Z.
(** What the converting constructor [stream_cmd_t(stream_mode_t)] gives
    the fields other than the mode. *)
Variable default_num_samps : N.
Variable default_stream_now : bool.
Variable default_time_spec : time_spec_t.

Local Open Scope cxx_scope.

Definition htonl (x : Z) : Z :=
  if host_little_endian then bswap32 (wrap32 x) else wrap32 x.

(** The bytes of a 32-bit field of a packet in the order they leave the host. *)
Definition wire_bytes (x : Z) : list Z :=
  if host_little_endian then rev (be_bytes x) else be_bytes x.

(** The converting constructor [stream_cmd_t(stream_mode_t)] that
    [init_ddc_config] relies on (types.hpp, not among the sources): it
    stores the mode; what it gives the other fields is a parameter. *)
Definition stream_cmd_of_mode (m : stream_mode_t) : stream_cmd_t :=
  {| stream_mode := m; num_samps := default_num_samps;
     stream_now := default_stream_now; time_spec := default_time_spec |}.

(** [template <class T> T log2(T num)]. *)
Definition log2 (num : double) : double :=
  B64.div (std_log num) (std_log (B64.of_Z 2)).

(** *** DDC helper methods *)

Definition calculate_freq_word_and_update_actual_freq
    (freq : double_ref) (clock_freq : double) : M Z :=
  let scale_factor := B64.pow2 (B64.of_Z 32) in
  (* calculate the freq register word *)
  f <- gets (load freq) ;;
  r <- lift (iround (B64.mul (B64.div f clock_freq) scale_factor)) ;;
  let freq_word := wrap32 r in
  (* update the actual frequency *)
  modify (store freq
            (B64.mul (B64.div (B64.of_Z freq_word) scale_factor) clock_freq)) ;;
  ret freq_word.

Definition update_ddc_config : M unit :=
  (* set the decimation *)
  decim <- gets _ddc_decim ;;
  poke32 FR_DSP_RX_DECIM_RATE (Z.of_N decim) ;;
  (* set the scaling *)
  let default_rx_scale_iq := 1024 in
  poke32 FR_DSP_RX_SCALE_IQ
    (calculate_iq_scale_word default_rx_scale_iq default_rx_scale_iq).

(** The request [issue_ddc_stream_cmd] builds before it sends it. *)
Definition encode_stream_cmd (stream_cmd : stream_cmd_t) : usrp2_ctrl_data_t :=
  let continuous :=
    match stream_mode stream_cmd with
    | STREAM_MODE_START_CONTINUOUS => 1
    | _ => 0
    end in
  let chain :=
    match stream_mode stream_cmd with
    | STREAM_MODE_NUM_SAMPS_AND_MORE => 1
    | _ => 0
    end in
  let num_samps_field :=
    match stream_mode stream_cmd with
    | STREAM_MODE_STOP_CONTINUOUS => htonl 0
    | _ => htonl (Z.of_N (num_samps stream_cmd))
    end in
  {| id := htonl USRP2_CTRL_ID_SEND_STREAM_COMMAND_FOR_ME_BRO;
     sc_now := if stream_now stream_cmd then 1 else 0;
     sc_secs := htonl (secs (time_spec stream_cmd));
     sc_ticks := htonl (ticks (time_spec stream_cmd));
     sc_continuous := continuous;
     sc_chain := chain;
     sc_num_samps := num_samps_field |}.

Definition issue_ddc_stream_cmd (stream_cmd : stream_cmd_t) : M unit :=
  let out_data := encode_stream_cmd stream_cmd in
  (* send and recv *)
  in_data <- ctrl_send_and_recv out_data ;;
  ASSERT_THROW (htonl (id in_data) =? USRP2_CTRL_ID_GOT_THAT_STREAM_COMMAND_DUDE)
    "htonl(in_data.id) == USRP2_CTRL_ID_GOT_THAT_STREAM_COMMAND_DUDE".

Definition init_ddc_config : M unit :=
  (* create the ddc in the rx dsp dict *)
  modify (fun st => set_rx_dsps (dict_set "ddc0" (_rx_dsps st)) st) ;;
  (* initial config and update *)
  modify (set_ddc_decim default_decim) ;;
  modify (set_ddc_freq (B64.of_Z 0)) ;;
  update_ddc_config ;;
  (* initial command that kills streaming (in case if was left on) *)
  issue_ddc_stream_cmd (stream_cmd_of_mode STREAM_MODE_STOP_CONTINUOUS).

(** *** DDC properties *)

Definition ddc_others : list string :=
  ["if_rate"; "bb_rate"; "decim"; "decims"; "freq"; "stream_cmd"]%string.

Definition ddc_get_string (key : wax_obj) : M wax_obj :=
  key_name <- as_string key ;;
  if String.eqb key_name "if_rate" then ret (obj_double master_clock_freq)
  else if String.eqb key_name "bb_rate" then
    decim <- gets _ddc_decim ;;
    ret (obj_double (B64.div master_clock_freq (B64.of_N decim)))
  else if String.eqb key_name "decim" then
    decim <- gets _ddc_decim ;; ret (obj_size_t decim)
  else if String.eqb key_name "decims" then
    rates <- gets _allowed_decim_and_interp_rates ;; ret (obj_rates rates)
  else if String.eqb key_name "freq" then
    freq <- gets _ddc_freq ;; ret (obj_double freq)
  else throw (invalid_argument ("error getting: unknown key with name " ++ key_name)).

Definition ddc_get (key : wax_obj) : M wax_obj :=
  match key with
  | obj_dsp_prop DSP_PROP_NAME => ret (obj_string "usrp2 ddc0")
  | obj_dsp_prop DSP_PROP_OTHERS => ret (obj_prop_names ddc_others)
  | _ => ddc_get_string key
  end.

Definition ddc_set (key val : wax_obj) : M unit :=
  key_name <- as_string key ;;
  if String.eqb key_name "decim" then
    new_decim <- as_size_t val ;;
    rates <- gets _allowed_decim_and_interp_rates ;;
    assert_has rates new_decim "usrp2 decimation" ;;
    modify (set_ddc_decim new_decim) ;;
    update_ddc_config
  else if String.eqb key_name "freq" then
    new_freq <- as_double val ;;
    ASSERT_THROW (B64.leb new_freq (B64.div master_clock_freq (B64.of_Z 2)))
      "new_freq <= get_master_clock_freq()/2.0" ;;
    ASSERT_THROW (B64.leb (B64.div (B64.opp master_clock_freq) (B64.of_Z 2)) new_freq)
      "new_freq >= -get_master_clock_freq()/2.0" ;;
    modify (set_ddc_freq new_freq) ;;
    word <- calculate_freq_word_and_update_actual_freq ref_ddc_freq master_clock_freq ;;
    poke32 FR_DSP_RX_FREQ word
  else if String.eqb key_name "stream_cmd" then
    stream_cmd <- as_stream_cmd val ;;
    issue_ddc_stream_cmd stream_cmd
  else throw (invalid_argument ("error setting: unknown key with name " ++ key_name)).

(** *** DUC helper methods *)

Definition update_duc_config : M unit :=
  (* Calculate CIC interpolation (i.e., without halfband interpolators) *)
  interp <- gets _duc_interp ;;
  let tmp_interp := cic_interp interp in
  (* Calculate closest multiplier constant to reverse gain absent scale multipliers *)
  let interp_cubed := B64.cube (B64.of_N tmp_interp) in
  r <- lift (iround
               (B64.div
                  (B64.mul (B64.of_Z 4096) (B64.pow2 (B64.ceil (log2 interp_cubed))))
                  (B64.mul (B64.div (B64.of_Z 165) (B64.of_Z 100)) interp_cubed))) ;;
  let scale := to_int16 r in
  (* set the interpolation *)
  decim <- gets _ddc_decim ;;
  poke32 FR_DSP_TX_INTERP_RATE (Z.of_N decim) ;;
  (* set the scaling *)
  poke32 FR_DSP_TX_SCALE_IQ (calculate_iq_scale_word scale scale).

Definition init_duc_config : M unit :=
  (* create the duc in the tx dsp dict *)
  modify (fun st => set_tx_dsps (dict_set "duc0" (_tx_dsps st)) st) ;;
  (* initial config and update *)
  modify (set_duc_interp default_interp) ;;
  modify (set_duc_freq (B64.of_Z 0)) ;;
  update_duc_config.

(** *** DUC properties *)

Definition duc_others : list string :=
  ["if_rate"; "bb_rate"; "interp"; "interps"; "freq"]%string.

Definition duc_get_string (key : wax_obj) : M wax_obj :=
  key_name <- as_string key ;;
  if String.eqb key_name "if_rate" then ret (obj_double master_clock_freq)
  else if String.eqb key_name "bb_rate" then
    interp <- gets _duc_interp ;;
    ret (obj_double (B64.div master_clock_freq (B64.of_N interp)))
  else if String.eqb key_name "interp" then
    interp <- gets _duc_interp ;; ret (obj_size_t interp)
  else if String.eqb key_name "interps" then
    rates <- gets _allowed_decim_and_interp_rates ;; ret (obj_rates rates)
  else if String.eqb key_name "freq" then
    freq <- gets _duc_freq ;; ret (obj_double freq)
  else throw (invalid_argument ("error getting: unknown key with name " ++ key_name)).

Definition duc_get (key : wax_obj) : M wax_obj :=
  match key with
  | obj_dsp_prop DSP_PROP_NAME => ret (obj_string "usrp2 duc0")
  | obj_dsp_prop DSP_PROP_OTHERS => ret (obj_prop_names duc_others)
  | _ => duc_get_string key
  end.

Definition duc_set (key val : wax_obj) : M unit :=
  key_name <- as_string key ;;
  if String.eqb key_name "interp" then
    new_interp <- as_size_t val ;;
    rates <- gets _allowed_decim_and_interp_rates ;;
    assert_has rates new_interp "usrp2 interpolation" ;;
    modify (set_duc_interp new_interp) ;;
    update_duc_config
  else if String.eqb key_name "freq" then
    new_freq <- as_double val ;;
    ASSERT_THROW (B64.leb new_freq (B64.div master_clock_freq (B64.of_Z 2)))
      "new_freq <= get_master_clock_freq()/2.0" ;;
    ASSERT_THROW (B64.leb (B64.div (B64.opp master_clock_freq) (B64.of_Z 2)) new_freq)
      "new_freq >= -get_master_clock_freq()/2.0" ;;
    modify (set_duc_freq new_freq) ;;
    word <- calculate_freq_word_and_update_actual_freq ref_duc_freq master_clock_freq ;;
    poke32 FR_DSP_TX_FREQ word
  else throw (invalid_argument ("error setting: unknown key with name " ++ key_name)).

(** *** Notions the statements below use *)

(** [get_master_clock_freq()/2.0]. *)
Definition half_clock : double := B64.div master_clock_freq (B64.of_Z 2).

(** The text of the guard a rejected frequency fails: the upper one is
    tested first. *)
Definition failed_freq_guard (new_freq : double) : string :=
  if B64.leb new_freq half_clock
  then "new_freq >= -get_master_clock_freq()/2.0"
  else "new_freq <= get_master_clock_freq()/2.0".

(** The number a reader of big-endian bytes makes of four bytes. *)
Definition be_decode (bytes : list Z) : Z :=
  fold_left (fun acc b => acc * 256 + b) bytes 0.

(** The value of a 32-bit field as the device reads it off the wire. *)
Definition wire_value (field : Z) : Z := be_decode (wire_bytes field).

(** The text of the assertion on the reply to a stream command. *)
Definition ack_assertion : string :=
  "htonl(in_data.id) == USRP2_CTRL_ID_GOT_THAT_STREAM_COMMAND_DUDE".

(** What the C library has to deliver for the compensation to come out
    as specified: on the cubes of 1..128 the quotient [log(x)/log(2)],
    rounded up, is the exact [ceil(log2(x))]. *)
Definition log2_exact_on_cubes : Prop :=
  forall c : N, (1 <= c <= 128)%N ->
    B64.ceil (log2 (B64.cube (B64.of_N c))) = B64.of_Z (Z.log2_up (Spec.gain c)).

(** The source's scale expression once [ceil(log2(interp_cubed))] is known. *)
Definition scale_expr (c : N) (k : double) : exn + Z :=
  iround
    (B64.div (B64.mul (B64.of_Z 4096) (B64.pow2 k))
             (B64.mul (B64.div (B64.of_Z 165) (B64.of_Z 100))
                      (B64.cube (B64.of_N c)))).

(** The binary64 evaluation of that expression lands on the specified
    scale, and the conversion to [boost::int16_t] does not change it. *)
Definition scale_agrees (c : N) : bool :=
  match scale_expr c (B64.of_Z (Z.log2_up (Spec.gain c))) with
  | inr r =>
      (r =? Spec.scale c) && (to_int16 r =? r) && (0 <=? r) && (r <? 2 ^ 15)
  | inl _ => false
  end.

(** Both stored rates are allowed ones. *)
Definition rates_allowed (st : usrp2_impl) : Prop :=
  In (_ddc_decim st) (_allowed_decim_and_interp_rates st)
  /\ In (_duc_interp st) (_allowed_decim_and_interp_rates st).

(** The names the string branches of the getters answer, and the names the
    setters act on. *)
Definition ddc_readable : list string :=
  ["if_rate"; "bb_rate"; "decim"; "decims"; "freq"]%string.
Definition ddc_settable : list string := ["decim"; "freq"; "stream_cmd"]%string.
Definition duc_readable : list string :=
  ["if_rate"; "bb_rate"; "interp"; "interps"; "freq"]%string.
Definition duc_settable : list string := ["interp"; "freq"]%string.

(** The registers of the receive chain. *)
Definition is_rx_reg (r : reg) : bool :=
  match r with
  | FR_DSP_RX_DECIM_RATE | FR_DSP_RX_SCALE_IQ | FR_DSP_RX_FREQ => true
  | _ => false
  end.

(** [!(x < 0)]. *)
Definition not_negative (x : double) : bool := negb (B64.ltb x (B64.of_Z 0)).

(** A command as far as the firmware can tell it apart: STOP_CONTINUOUS
    goes out as NUM_SAMPS_AND_DONE with no samples. *)
Definition on_the_wire (cmd : stream_cmd_t) : stream_cmd_t :=
  match stream_mode cmd with
  | STREAM_MODE_STOP_CONTINUOUS =>
      {| stream_mode := STREAM_MODE_NUM_SAMPS_AND_DONE; num_samps := 0;
         stream_now := stream_now cmd; time_spec := time_spec cmd |}
  | _ => cmd
  end.

(** The fields of a command fit the 32-bit fields of the request. *)
Definition fits_request (cmd : stream_cmd_t) : Prop :=
  Z.of_N (num_samps cmd) < 2 ^ 32
  /\ 0 <= secs (time_spec cmd) < 2 ^ 32
  /\ 0 <= ticks (time_spec cmd) < 2 ^ 32.

(** The frequency the code computes back from a register word. *)
Definition actual_freq (word : Z) : double :=
  B64.mul (B64.div (B64.of_Z word) (B64.pow2 (B64.of_Z 32))) master_clock_freq.

(** A call through the property interface of one of the two channels, and
    the state a sequence of such calls leaves (a call that throws leaves
    the state it had reached). *)
Inductive prop_call : Type :=
| call_ddc_get (key : wax_obj)
| call_ddc_set (key val : wax_obj)
| call_duc_get (key : wax_obj)
| call_duc_set (key val : wax_obj).

Definition run_call (c : prop_call) (st : usrp2_impl) : usrp2_impl :=
  match c with
  | call_ddc_get key => snd (ddc_get key st)
  | call_ddc_set key val => snd (ddc_set key val st)
  | call_duc_get key => snd (duc_get key st)
  | call_duc_set key val => snd (duc_set key val st)
  end.

Definition run_calls (cs : list prop_call) (st : usrp2_impl) : usrp2_impl :=
  fold_left (fun s c => run_call c s) cs st.

(** Not below zero: NaN, a zero of either sign, or a value with a clear
    sign bit. *)
Definition sign_clear (x : double) : Prop :=
  match x with
  | S754_nan | S754_zero _ => True
  | S754_infinity s | S754_finite s _ _ => s = false
  end.

(** [c] is a power of two; the scale of [c] is in its band and is the
    least one exactly for a power of two. *)
Definition is_pow2 (c : N) : bool := (2 ^ N.log2 c =? c)%N.

Definition scale_in_band (c : N) : bool :=
  (2482 <=? Spec.scale c) && (Spec.scale c <=? 4906)
  && Bool.eqb (Spec.scale c =? 2482) (is_pow2 c).

(** ** Facts about binary64 comparison and sign *)

Lemma SFcompare_antisym (a b : double) :
  SFcompare b a = option_map CompOpp (SFcompare a b).
Proof.
  destruct a as [sa|sa| |sa ma ea], b as [sb|sb| |sb mb eb]; simpl;
    try reflexivity;
    try (destruct sa; reflexivity); try (destruct sb; reflexivity);
    try (destruct sa, sb; reflexivity).
  destruct sa, sb; try reflexivity;
    rewrite (Z.compare_antisym ea eb);
    destruct (ea ?= eb); simpl; try reflexivity;
    rewrite (Pos.compare_cont_antisym ma mb Eq); simpl;
    destruct (Pos.compare_cont Eq ma mb); reflexivity.
Qed.

Lemma SFcompare_opp (a b : double) :
  SFcompare (SFopp a) (SFopp b) = SFcompare b a.
Proof.
  rewrite (SFcompare_antisym a b).
  destruct a as [sa|sa| |sa ma ea], b as [sb|sb| |sb mb eb]; simpl;
    try reflexivity;
    try (destruct sa; reflexivity); try (destruct sb; reflexivity);
    try (destruct sa, sb; reflexivity).
  destruct sa, sb; simpl; try reflexivity;
    destruct (ea ?= eb); simpl; try reflexivity;
    destruct (Pos.compare_cont Eq ma mb); reflexivity.
Qed.

Lemma SFltb_not_leb (a b : double) : SFltb a b = true -> SFleb b a = false.
Proof.
  unfold SFltb, SFleb. rewrite (SFcompare_antisym a b).
  destruct (SFcompare a b) as [[ | | ]|]; simpl; congruence.
Qed.

Lemma binary_round_aux_opp (s : bool) (m e : Z) (l : location) :
  SFopp (binary_round_aux B64.prec B64.emax s m e l)
  = binary_round_aux B64.prec B64.emax (negb s) m e l.
Proof.
  unfold binary_round_aux.
  destruct (shr_fexp B64.prec B64.emax m e l) as [mrs' e'].
  destruct (shr_fexp B64.prec B64.emax _ e' loc_Exact) as [mrs'' e''].
  destruct (shr_m mrs''); simpl; try reflexivity.
  destruct (e'' <=? _); reflexivity.
Qed.

Lemma div_opp_l (x y : double) : B64.div (B64.opp x) y = B64.opp (B64.div x y).
Proof.
  unfold B64.div, B64.opp.
  destruct x as [sx|sx| |sx mx ex], y as [sy|sy| |sy my ey]; simpl;
    try reflexivity; try (destruct sx, sy; reflexivity).
  destruct (SFdiv_core_binary B64.prec B64.emax (Z.pos mx) ex (Z.pos my) ey)
    as [[mz ez] lz].
  rewrite binary_round_aux_opp. destruct sx, sy; reflexivity.
Qed.

(** A frequency beyond half the clock fails one of the two guards of the
    [freq] setters. *)
Lemma nyquist_guard (half f : double) :
  B64.ltb half (B64.abs f) = true ->
  B64.leb f half = false \/ B64.leb (B64.opp half) f = false.
Proof.
  unfold B64.ltb, B64.leb, B64.abs, B64.opp. intros H.
  destruct f as [s|s| |s m e]; simpl in H.
  - left. apply SFltb_not_leb.
    unfold SFltb in *. destruct half as [?|[]| |[] ? ?]; simpl in *; congruence.
  - destruct s.
    + right. unfold SFleb.
      change (S754_infinity true) with (SFopp (S754_infinity false)).
      rewrite SFcompare_opp.
      apply SFltb_not_leb in H. exact H.
    + left. apply SFltb_not_leb. exact H.
  - unfold SFltb in H. destruct half; simpl in H; discriminate.
  - destruct s.
    + right. unfold SFleb.
      change (S754_finite true m e) with (SFopp (S754_finite false m e)).
      rewrite SFcompare_opp.
      apply SFltb_not_leb in H. exact H.
    + left. apply SFltb_not_leb. exact H.
Qed.

(** ** Validation failures leave the object as it was *)

Lemma existsb_eqb_In (n : N) (l : list N) :
  existsb (N.eqb n) l = true <-> In n l.
Proof.
  rewrite existsb_exists. split.
  - intros [x [Hin Heq]]. apply N.eqb_eq in Heq. subst. exact Hin.
  - intros Hin. exists n. split; [exact Hin | apply N.eqb_refl].
Qed.

Lemma assert_has_absent (l : list N) (n : N) (what : string) (st : usrp2_impl) :
  ~ In n l -> assert_has l n what st = (inl (assert_has_failed what n), st).
Proof.
  intros Hn. unfold assert_has.
  destruct (existsb (N.eqb n) l) eqn:E.
  - apply existsb_eqb_In in E. contradiction.
  - reflexivity.
Qed.

Lemma assert_has_present (l : list N) (n : N) (what : string) (st : usrp2_impl) :
  In n l -> assert_has l n what st = (inr tt, st).
Proof.
  intros Hn. unfold assert_has.
  apply existsb_eqb_In in Hn. rewrite Hn. reflexivity.
Qed.

(** C4. A frequency whose magnitude exceeds half the master clock is
    rejected by the [freq] setter of the receive and of the transmit
    channel: the call throws the failed assertion of the guard, and the
    object (stored frequency, register writes and all) is what it was
    before the call. *)
Theorem set_freq_beyond_nyquist_rejected (st : usrp2_impl) (new_freq : double) :
  B64.ltb half_clock (B64.abs new_freq) = true ->
  ddc_set (obj_string "freq") (obj_double new_freq) st
    = (inl (assert_throw_failed (failed_freq_guard new_freq)), st)
  /\ duc_set (obj_string "freq") (obj_double new_freq) st
    = (inl (assert_throw_failed (failed_freq_guard new_freq)), st).
Proof.
  intros H. apply nyquist_guard in H.
  unfold ddc_set, duc_set, failed_freq_guard, bind, as_string, as_double,
    ASSERT_THROW, ret, throw; simpl.
  fold half_clock. rewrite div_opp_l. fold half_clock.
  destruct (B64.leb new_freq half_clock) eqn:Hle.
  - destruct H as [H | H]; [discriminate|]. rewrite H. split; reflexivity.
  - split; reflexivity.
Qed.

(** C5. A rate that is not in the allowed set is rejected by the [decim]
    and by the [interp] setter: the call throws the failed [assert_has],
    the object is what it was before, and so are the stored rate and the
    bandwidth [bb_rate] read back from it. *)
Theorem set_rate_not_allowed_rejected (st : usrp2_impl) (new_rate : N) :
  ~ In new_rate (_allowed_decim_and_interp_rates st) ->
  let rx := ddc_set (obj_string "decim") (obj_size_t new_rate) st in
  let tx := duc_set (obj_string "interp") (obj_size_t new_rate) st in
  rx = (inl (assert_has_failed "usrp2 decimation" new_rate), st)
  /\ tx = (inl (assert_has_failed "usrp2 interpolation" new_rate), st)
  /\ _ddc_decim (snd rx) = _ddc_decim st
  /\ _duc_interp (snd tx) = _duc_interp st
  /\ fst (ddc_get (obj_string "bb_rate") (snd rx))
     = inr (obj_double (B64.div master_clock_freq (B64.of_N (_ddc_decim st))))
  /\ fst (duc_get (obj_string "bb_rate") (snd tx))
     = inr (obj_double (B64.div master_clock_freq (B64.of_N (_duc_interp st)))).
Proof.
  intros Hn rx tx.
  assert (Hrx : rx = (inl (assert_has_failed "usrp2 decimation" new_rate), st)).
  { unfold rx, ddc_set, bind, as_string, as_size_t, ret, gets; simpl.
    rewrite (assert_has_absent _ _ _ _ Hn). reflexivity. }
  assert (Htx : tx = (inl (assert_has_failed "usrp2 interpolation" new_rate), st)).
  { unfold tx, duc_set, bind, as_string, as_size_t, ret, gets; simpl.
    rewrite (assert_has_absent _ _ _ _ Hn). reflexivity. }
  rewrite Hrx, Htx. repeat split; reflexivity.
Qed.

(** ** Unknown property names *)

Lemma eqb_of_not_In (name k : string) (l : list string) :
  ~ In name l -> In k l -> String.eqb name k = false.
Proof.
  intros Hn Hk. apply String.eqb_neq. intros ->. contradiction.
Qed.

Ltac names_differ H :=
  repeat match goal with
         | |- context [String.eqb ?n ?k] =>
             rewrite (eqb_of_not_In n k _ H) by (simpl; tauto)
         end.

Lemma ddc_get_unknown (name : string) (st : usrp2_impl) :
  ~ In name ddc_others ->
  ddc_get (obj_string name) st
  = (inl (invalid_argument ("error getting: unknown key with name " ++ name)), st).
Proof.
  intros H. unfold ddc_get, ddc_get_string, as_string, bind, ret. names_differ H.
  reflexivity.
Qed.

Lemma ddc_set_unknown (name : string) (val : wax_obj) (st : usrp2_impl) :
  ~ In name ddc_others ->
  ddc_set (obj_string name) val st
  = (inl (invalid_argument ("error setting: unknown key with name " ++ name)), st).
Proof.
  intros H. unfold ddc_set, as_string, bind, ret. names_differ H. reflexivity.
Qed.

Lemma duc_get_unknown (name : string) (st : usrp2_impl) :
  ~ In name duc_others ->
  duc_get (obj_string name) st
  = (inl (invalid_argument ("error getting: unknown key with name " ++ name)), st).
Proof.
  intros H. unfold duc_get, duc_get_string, as_string, bind, ret. names_differ H.
  reflexivity.
Qed.

Lemma duc_set_unknown (name : string) (val : wax_obj) (st : usrp2_impl) :
  ~ In name duc_others ->
  duc_set (obj_string name) val st
  = (inl (invalid_argument ("error setting: unknown key with name " ++ name)), st).
Proof.
  intros H. unfold duc_set, as_string, bind, ret. names_differ H. reflexivity.
Qed.

(** C9. A name that is not among the properties a channel lists (the
    [DSP_PROP_OTHERS] list of the receive, respectively the transmit
    channel) makes [get] and [set] throw [std::invalid_argument] with a
    message that ends in the name, and the object is left as it was.
    The transmit channel does not list [stream_cmd]: setting it there
    throws the same way. *)
Theorem unknown_property_rejected (name : string) (val : wax_obj) (st : usrp2_impl) :
  (~ In name ddc_others ->
     ddc_get (obj_string name) st
     = (inl (invalid_argument ("error getting: unknown key with name " ++ name)), st)
     /\ ddc_set (obj_string name) val st
     = (inl (invalid_argument ("error setting: unknown key with name " ++ name)), st))
  /\ (~ In name duc_others ->
     duc_get (obj_string name) st
     = (inl (invalid_argument ("error getting: unknown key with name " ++ name)), st)
     /\ duc_set (obj_string name) val st
     = (inl (invalid_argument ("error setting: unknown key with name " ++ name)), st))
  /\ ~ In "stream_cmd"%string duc_others
  /\ duc_set (obj_string "stream_cmd") val st
     = (inl (invalid_argument "error setting: unknown key with name stream_cmd"), st).
Proof.
  split; [|split; [|split]].
  - intros H. split; [apply ddc_get_unknown | apply ddc_set_unknown]; exact H.
  - intros H. split; [apply duc_get_unknown | apply duc_set_unknown]; exact H.
  - simpl. intros [H|[H|[H|[H|[H|[]]]]]]; discriminate.
  - reflexivity.
Qed.

(** ** Words, bytes and byte order *)

Lemma land_shiftl_low (a b n : Z) :
  0 <= n -> 0 <= b < 2 ^ n -> Z.land (Z.shiftl a n) b = 0.
Proof.
  intros Hn Hb. apply Z.bits_inj'. intros i Hi.
  rewrite Z.land_spec, Z.bits_0.
  destruct (Z.ltb_spec i n) as [Hlt | Hge].
  - rewrite Z.shiftl_spec_low by assumption. reflexivity.
  - destruct (Z.eq_dec b 0) as [-> | Hb0].
    + rewrite Z.bits_0. apply andb_false_r.
    + rewrite (Z.bits_above_log2 b i); [apply andb_false_r | lia |].
      apply Z.log2_lt_pow2; [lia|].
      apply Z.lt_le_trans with (2 ^ n); [lia|].
      apply Z.pow_le_mono_r; lia.
Qed.

Lemma lor_shiftl_add (a b n : Z) :
  0 <= n -> 0 <= b < 2 ^ n -> Z.lor (Z.shiftl a n) b = a * 2 ^ n + b.
Proof.
  intros Hn Hb.
  rewrite <- Z.lxor_lor by (apply land_shiftl_low; assumption).
  rewrite <- Z.add_nocarry_lxor by (apply land_shiftl_low; assumption).
  rewrite Z.shiftl_mul_pow2 by assumption. reflexivity.
Qed.

Lemma land_255 (a : Z) : Z.land a 255 = a mod 256.
Proof. change 255 with (Z.ones 8). rewrite Z.land_ones by lia. reflexivity. Qed.

Lemma land_65535 (a : Z) : Z.land a 65535 = a mod 65536.
Proof. change 65535 with (Z.ones 16). rewrite Z.land_ones by lia. reflexivity. Qed.

Lemma bswap32_arith (x : Z) :
  bswap32 x
  = (x mod 256) * 16777216 + ((x / 256) mod 256) * 65536
    + ((x / 65536) mod 256) * 256 + (x / 16777216) mod 256.
Proof.
  unfold bswap32. rewrite !land_255, !Z.shiftr_div_pow2 by lia.
  change (2 ^ 24) with 16777216. change (2 ^ 16) with 65536. change (2 ^ 8) with 256.
  set (b0 := x mod 256). set (b1 := (x / 256) mod 256).
  set (b2 := (x / 65536) mod 256). set (b3 := (x / 16777216) mod 256).
  assert (H0 : 0 <= b0 < 256) by (apply Z.mod_pos_bound; lia).
  assert (H1 : 0 <= b1 < 256) by (apply Z.mod_pos_bound; lia).
  assert (H2 : 0 <= b2 < 256) by (apply Z.mod_pos_bound; lia).
  assert (H3 : 0 <= b3 < 256) by (apply Z.mod_pos_bound; lia).
  rewrite (lor_shiftl_add b2 b3 8) by lia.
  rewrite (Z.shiftl_mul_pow2 b1 16) by lia.
  rewrite (lor_shiftl_add b0 (b1 * 2 ^ 16) 24) by lia.
  replace (b0 * 2 ^ 24 + b1 * 2 ^ 16) with (Z.shiftl (b0 * 2 ^ 8 + b1) 16)
    by (rewrite Z.shiftl_mul_pow2 by lia; lia).
  rewrite (lor_shiftl_add _ (b2 * 2 ^ 8 + b3) 16) by lia.
  change (2 ^ 24) with 16777216. change (2 ^ 16) with 65536.
  change (2 ^ 8) with 256. lia.
Qed.

Lemma byte_fields (b3 b2 b1 b0 : Z) :
  0 <= b3 < 256 -> 0 <= b2 < 256 -> 0 <= b1 < 256 -> 0 <= b0 < 256 ->
  let z := b3 * 16777216 + b2 * 65536 + b1 * 256 + b0 in
  (z / 16777216) mod 256 = b3 /\ (z / 65536) mod 256 = b2
  /\ (z / 256) mod 256 = b1 /\ z mod 256 = b0.
Proof.
  intros H3 H2 H1 H0 z.
  assert (E24 : z / 16777216 = b3)
    by (symmetry; apply Z.div_unique with (b2 * 65536 + b1 * 256 + b0); lia).
  assert (E16 : z / 65536 = b3 * 256 + b2)
    by (symmetry; apply Z.div_unique with (b1 * 256 + b0); lia).
  assert (E8 : z / 256 = b3 * 65536 + b2 * 256 + b1)
    by (symmetry; apply Z.div_unique with b0; lia).
  rewrite E24, E16, E8.
  repeat split.
  - apply Z.mod_small; lia.
  - symmetry; apply Z.mod_unique with b3; lia.
  - symmetry; apply Z.mod_unique with (b3 * 256 + b2); lia.
  - symmetry; apply Z.mod_unique with (b3 * 65536 + b2 * 256 + b1); lia.
Qed.

Lemma bytes_of_sum (b3 b2 b1 b0 : Z) :
  0 <= b3 < 256 -> 0 <= b2 < 256 -> 0 <= b1 < 256 -> 0 <= b0 < 256 ->
  be_bytes (b3 * 16777216 + b2 * 65536 + b1 * 256 + b0) = [b3; b2; b1; b0].
Proof.
  intros H3 H2 H1 H0. unfold be_bytes.
  rewrite !land_255, !Z.shiftr_div_pow2 by lia.
  change (2 ^ 24) with 16777216. change (2 ^ 16) with 65536. change (2 ^ 8) with 256.
  destruct (byte_fields b3 b2 b1 b0 H3 H2 H1 H0) as (E3 & E2 & E1 & E0).
  rewrite E3, E2, E1, E0. reflexivity.
Qed.

Lemma bytes_split (y : Z) :
  0 <= y < 2 ^ 32 ->
  exists b3 b2 b1 b0,
    (0 <= b3 < 256 /\ 0 <= b2 < 256 /\ 0 <= b1 < 256 /\ 0 <= b0 < 256)
    /\ y = b3 * 16777216 + b2 * 65536 + b1 * 256 + b0.
Proof.
  intros Hy. change (2 ^ 32) with 4294967296 in Hy.
  pose proof (Z.div_mod y 256 ltac:(lia)) as E0.
  pose proof (Z.mod_pos_bound y 256 ltac:(lia)) as B0.
  pose proof (Z.div_mod (y / 256) 256 ltac:(lia)) as E1.
  pose proof (Z.mod_pos_bound (y / 256) 256 ltac:(lia)) as B1.
  pose proof (Z.div_mod (y / 256 / 256) 256 ltac:(lia)) as E2.
  pose proof (Z.mod_pos_bound (y / 256 / 256) 256 ltac:(lia)) as B2.
  exists (y / 256 / 256 / 256), ((y / 256 / 256) mod 256),
    ((y / 256) mod 256), (y mod 256).
  split; [|lia]. repeat split; lia.
Qed.

Lemma be_decode_be_bytes (y : Z) : 0 <= y < 2 ^ 32 -> be_decode (be_bytes y) = y.
Proof.
  intros Hy. destruct (bytes_split y Hy) as (b3 & b2 & b1 & b0 & (H3 & H2 & H1 & H0) & ->).
  rewrite bytes_of_sum by assumption. unfold be_decode; simpl. lia.
Qed.

Lemma be_decode_rev_bswap32 (y : Z) :
  0 <= y < 2 ^ 32 -> be_decode (rev (be_bytes (bswap32 y))) = y.
Proof.
  intros Hy. destruct (bytes_split y Hy) as (b3 & b2 & b1 & b0 & (H3 & H2 & H1 & H0) & ->).
  destruct (byte_fields b3 b2 b1 b0 H3 H2 H1 H0) as (E3 & E2 & E1 & E0).
  rewrite bswap32_arith, E3, E2, E1, E0.
  rewrite (bytes_of_sum b0 b1 b2 b3) by assumption.
  unfold be_decode; simpl. lia.
Qed.

(** Whatever the byte order of the host, a field that went through
    [htonl] reads as the original number in network byte order. *)
Lemma wire_value_htonl (x : Z) : wire_value (htonl x) = wrap32 x.
Proof.
  assert (Hw : 0 <= wrap32 x < 2 ^ 32) by (apply Z.mod_pos_bound; lia).
  unfold wire_value, wire_bytes, htonl. destruct host_little_endian.
  - apply be_decode_rev_bswap32. exact Hw.
  - apply be_decode_be_bytes. exact Hw.
Qed.

(** ** Stream commands *)

Lemma issue_ddc_stream_cmd_sends (cmd : stream_cmd_t) (st : usrp2_impl) :
  let st' := snd (issue_ddc_stream_cmd cmd st) in
  ctrl_sent st' = ctrl_sent st ++ [encode_stream_cmd cmd]
  /\ ctrl_replies st' = tl (ctrl_replies st)
  /\ rx_config st' = rx_config st /\ tx_config st' = tx_config st
  /\ pokes st' = pokes st.
Proof.
  unfold issue_ddc_stream_cmd, bind, ctrl_send_and_recv, ASSERT_THROW, ret, throw.
  destruct (ctrl_replies st) as [|in_data rest]; simpl.
  - repeat split; reflexivity.
  - destruct (htonl (id in_data) =? _); simpl; repeat split; reflexivity.
Qed.

Lemma issue_ddc_stream_cmd_result (cmd : stream_cmd_t) (st : usrp2_impl) :
  fst (issue_ddc_stream_cmd cmd st)
  = match ctrl_replies st with
    | [] => inl no_ctrl_response
    | in_data :: _ =>
        if htonl (id in_data) =? USRP2_CTRL_ID_GOT_THAT_STREAM_COMMAND_DUDE
        then inr tt else inl (assert_throw_failed ack_assertion)
    end.
Proof.
  unfold issue_ddc_stream_cmd, bind, ctrl_send_and_recv, ASSERT_THROW, ret, throw.
  destruct (ctrl_replies st) as [|in_data rest]; simpl.
  - reflexivity.
  - destruct (htonl (id in_data) =? _); reflexivity.
Qed.

(** C7. The request built for a stream command follows the mode table:
    [continuous] is 1 only for START_CONTINUOUS, [chain] is 1 only for
    NUM_SAMPS_AND_MORE, and the sample count that goes on the wire is the
    caller's, except for STOP_CONTINUOUS, where it is 0 whatever the
    caller gave. That request is the one [issue_ddc_stream_cmd] sends. *)
Theorem stream_cmd_mode_table (cmd : stream_cmd_t) (st : usrp2_impl) :
  Z.of_N (num_samps cmd) < 2 ^ 32 ->
  let out_data := encode_stream_cmd cmd in
  let given := Z.of_N (num_samps cmd) in
  (sc_continuous out_data, sc_chain out_data, wire_value (sc_num_samps out_data))
  = match stream_mode cmd with
    | STREAM_MODE_START_CONTINUOUS => (1, 0, given)
    | STREAM_MODE_STOP_CONTINUOUS => (0, 0, 0)
    | STREAM_MODE_NUM_SAMPS_AND_DONE => (0, 0, given)
    | STREAM_MODE_NUM_SAMPS_AND_MORE => (0, 1, given)
    end
  /\ ctrl_sent (snd (issue_ddc_stream_cmd cmd st)) = ctrl_sent st ++ [out_data].
Proof.
  intros Hn out_data given. split.
  - assert (Hg : wrap32 given = given)
      by (apply Z.mod_small; unfold given; lia).
    unfold out_data, encode_stream_cmd.
    destruct (stream_mode cmd); simpl; rewrite wire_value_htonl;
      fold given; rewrite ?Hg; reflexivity.
  - apply issue_ddc_stream_cmd_sends.
Qed.

(** C8. When the reply to a stream command does not carry the expected
    acknowledgment identifier, the call throws the failed assertion after
    a single request (nothing is sent again), neither channel's stored
    configuration nor any register is touched, and the object takes the
    next stream command: with a matching reply that one succeeds. *)
Theorem stream_cmd_ack_mismatch
    (cmd : stream_cmd_t) (st : usrp2_impl)
    (in_data : usrp2_ctrl_data_t) (rest : list usrp2_ctrl_data_t) :
  ctrl_replies st = in_data :: rest ->
  htonl (id in_data) <> USRP2_CTRL_ID_GOT_THAT_STREAM_COMMAND_DUDE ->
  let st' := snd (issue_ddc_stream_cmd cmd st) in
  ddc_set (obj_string "stream_cmd") (obj_stream_cmd cmd) st
    = issue_ddc_stream_cmd cmd st
  /\ fst (issue_ddc_stream_cmd cmd st) = inl (assert_throw_failed ack_assertion)
  /\ ctrl_sent st' = ctrl_sent st ++ [encode_stream_cmd cmd]
  /\ ctrl_replies st' = rest
  /\ rx_config st' = rx_config st /\ tx_config st' = tx_config st
  /\ pokes st' = pokes st
  /\ forall cmd' ack rest',
       rest = ack :: rest' ->
       htonl (id ack) = USRP2_CTRL_ID_GOT_THAT_STREAM_COMMAND_DUDE ->
       fst (issue_ddc_stream_cmd cmd' st') = inr tt
       /\ ctrl_sent (snd (issue_ddc_stream_cmd cmd' st'))
          = ctrl_sent st ++ [encode_stream_cmd cmd; encode_stream_cmd cmd'].
Proof.
  intros Hrep Hid st'.
  destruct (issue_ddc_stream_cmd_sends cmd st) as (Hs & Hr & Hrx & Htx & Hp).
  fold st' in Hs, Hr, Hrx, Htx, Hp. rewrite Hrep in Hr; simpl in Hr.
  split; [reflexivity|].
  split.
  { rewrite issue_ddc_stream_cmd_result, Hrep.
    apply Z.eqb_neq in Hid. rewrite Hid. reflexivity. }
  repeat (split; [assumption|]).
  intros cmd' ack rest' -> Hack. split.
  - rewrite issue_ddc_stream_cmd_result, Hr.
    apply Z.eqb_eq in Hack. rewrite Hack. reflexivity.
  - destruct (issue_ddc_stream_cmd_sends cmd' st') as (Hs' & _).
    rewrite Hs', Hs, <- app_assoc. reflexivity.
Qed.

(** ** Initialisation *)

Lemma update_duc_config_keeps (st : usrp2_impl) :
  let st' := snd (update_duc_config st) in
  _duc_interp st' = _duc_interp st /\ _duc_freq st' = _duc_freq st
  /\ _ddc_decim st' = _ddc_decim st /\ _ddc_freq st' = _ddc_freq st
  /\ _allowed_decim_and_interp_rates st' = _allowed_decim_and_interp_rates st
  /\ ctrl_sent st' = ctrl_sent st /\ ctrl_replies st' = ctrl_replies st.
Proof.
  unfold update_duc_config, bind, gets, lift, poke32, modify.
  destruct (iround _); simpl; repeat split; reflexivity.
Qed.

(** C10. Initialising the receive channel stores decimation 16 and
    frequency 0, writes the decimation and the scaling register, and then
    sends one stream command, STOP_CONTINUOUS, over the control channel,
    whatever the device answers. Initialising the transmit channel stores
    interpolation 16 and frequency 0 and sends nothing over the control
    channel. *)
Theorem init_config_effects (st : usrp2_impl) :
  let rx := snd (init_ddc_config st) in
  let tx := snd (init_duc_config st) in
  let stop := encode_stream_cmd (stream_cmd_of_mode STREAM_MODE_STOP_CONTINUOUS) in
  (_ddc_decim rx = 16%N /\ _ddc_freq rx = B64.of_Z 0
   /\ pokes rx = pokes st ++ [(FR_DSP_RX_DECIM_RATE, 16);
                             (FR_DSP_RX_SCALE_IQ, 1024 * 65536 + 1024)]
   /\ ctrl_sent rx = ctrl_sent st ++ [stop]
   /\ sc_continuous stop = 0 /\ sc_chain stop = 0
   /\ wire_value (sc_num_samps stop) = 0)
  /\ (_duc_interp tx = 16%N /\ _duc_freq tx = B64.of_Z 0
      /\ ctrl_sent tx = ctrl_sent st).
Proof.
  intros rx tx stop. split.
  - unfold rx, init_ddc_config, update_ddc_config, bind, modify, gets, poke32.
    cbn -[issue_ddc_stream_cmd stream_cmd_of_mode encode_stream_cmd].
    match goal with
    | |- context [issue_ddc_stream_cmd ?c ?s] =>
        destruct (issue_ddc_stream_cmd_sends c s) as (Hs & _ & Hrx & _ & Hp);
        pose proof (f_equal rate Hrx) as Hd;
        pose proof (f_equal frequencyOffset Hrx) as Hf
    end.
    simpl in Hs, Hd, Hf, Hp. rewrite Hs, Hd, Hf, Hp, <- app_assoc.
    repeat split; try reflexivity.
    unfold stop; simpl. apply wire_value_htonl.
  - unfold tx, init_duc_config, bind, modify.
    cbn -[update_duc_config].
    match goal with
    | |- context [update_duc_config ?s] =>
        destruct (update_duc_config_keeps s) as (Hi & Hf & _ & _ & _ & Hs & _)
    end.
    rewrite Hi, Hf, Hs. repeat split; reflexivity.
Qed.

(** ** The transmit gain compensation *)

(** The structural [cic_interp] is the source's loop. *)
Lemma cic_interp_loop (n : N) :
  cic_interp n = if (128 <? n)%N then cic_interp (n / 2) else n.
Proof.
  rewrite <- N.div2_div.
  destruct n as [|p]; [reflexivity|].
  change (128 <? N.pos p)%N with (128 <? p)%positive.
  destruct p as [q|q|]; simpl cic_interp; simpl N.div2.
  - destruct (128 <? q~1)%positive; reflexivity.
  - destruct (128 <? q~0)%positive; reflexivity.
  - reflexivity.
Qed.

Lemma coarse_factor_halve (r c : N) :
  (128 < r)%N -> Spec.coarse_factor (r / 2) c -> Spec.coarse_factor r c.
Proof.
  intros Hr (j & Hc & Hle & Hlt). exists (N.succ j). split; [|split].
  - rewrite Hc, N.pow_succ_r', N.Div0.div_div. reflexivity.
  - exact Hle.
  - intros i Hi. destruct (N.eq_dec i 0) as [-> | Hi0].
    + rewrite N.pow_0_r, N.div_1_r. exact Hr.
    + replace i with (N.succ (N.pred i)) by lia.
      rewrite N.pow_succ_r', <- N.Div0.div_div.
      apply Hlt. lia.
Qed.

Lemma coarse_factor_stop (r : N) : (r <= 128)%N -> Spec.coarse_factor r r.
Proof.
  intros Hr. exists 0%N. rewrite N.pow_0_r, N.div_1_r.
  split; [reflexivity|]. split; [exact Hr|]. intros i Hi. lia.
Qed.

Lemma cic_interp_coarse (r : N) : Spec.coarse_factor r (cic_interp r).
Proof.
  induction r as [r IH] using (well_founded_induction N.lt_wf_0).
  rewrite cic_interp_loop.
  destruct (N.ltb_spec 128 r) as [Hgt | Hle].
  - apply coarse_factor_halve; [exact Hgt|]. apply IH.
    apply N.div_lt; lia.
  - apply coarse_factor_stop. exact Hle.
Qed.

Lemma cic_interp_range (r : N) : (0 < r)%N -> (1 <= cic_interp r <= 128)%N.
Proof.
  intros Hr. split.
  - destruct r as [|p]; [lia|]. simpl. lia.
  - destruct (cic_interp_coarse r) as (j & _ & Hle & _). exact Hle.
Qed.

Lemma scale_agrees_table :
  forallb scale_agrees (map N.of_nat (seq 1 128)) = true.
Proof. vm_compute. reflexivity. Qed.

Lemma scale_expr_spec (c : N) :
  (1 <= c <= 128)%N ->
  scale_expr c (B64.of_Z (Z.log2_up (Spec.gain c))) = inr (Spec.scale c)
  /\ to_int16 (Spec.scale c) = Spec.scale c
  /\ 0 <= Spec.scale c < 2 ^ 15.
Proof.
  intros Hc.
  assert (Hin : In c (map N.of_nat (seq 1 128))).
  { apply in_map_iff. exists (N.to_nat c). split; [apply N2Nat.id|].
    apply in_seq. lia. }
  pose proof (proj1 (forallb_forall _ _) scale_agrees_table c Hin) as H.
  unfold scale_agrees in H.
  destruct (scale_expr c _) as [e | r]; [discriminate|].
  apply andb_true_iff in H. destruct H as [H H3].
  apply andb_true_iff in H. destruct H as [H H2].
  apply andb_true_iff in H. destruct H as [H0 H1].
  apply Z.eqb_eq in H0, H1. apply Z.leb_le in H2. apply Z.ltb_lt in H3.
  subst r. repeat split; assumption.
Qed.

Lemma iq_scale_word_halves (s : Z) :
  0 <= s < 2 ^ 15 ->
  calculate_iq_scale_word s s = s * 65536 + s
  /\ Z.shiftr (calculate_iq_scale_word s s) 16 = s
  /\ Z.land (calculate_iq_scale_word s s) 65535 = s.
Proof.
  intros Hs. change (2 ^ 15) with 32768 in Hs.
  assert (E : calculate_iq_scale_word s s = s * 65536 + s).
  { unfold calculate_iq_scale_word, to_uint16, wrap32.
    rewrite Z.shiftl_0_r.
    rewrite (Z.mod_small s (2 ^ 16)) by (change (2 ^ 16) with 65536; lia).
    rewrite lor_shiftl_add by (change (2 ^ 16) with 65536; lia).
    change (2 ^ 16) with 65536.
    apply Z.mod_small. change (2 ^ 32) with 4294967296. lia. }
  rewrite E. split; [reflexivity|]. split.
  - rewrite Z.shiftr_div_pow2 by lia. change (2 ^ 16) with 65536.
    symmetry. apply Z.div_unique with s; lia.
  - rewrite land_65535. symmetry. apply Z.mod_unique with s; lia.
Qed.

Lemma last_write_app_last (r : reg) (v : Z) (l : list (reg * Z)) :
  last_write r (l ++ [(r, v)]) = Some v.
Proof.
  induction l as [|[r' v'] l IH]; simpl.
  - destruct r; reflexivity.
  - rewrite IH. reflexivity.
Qed.

Lemma last_write_app_last2 (r : reg) (v : Z) (x : reg * Z) (l : list (reg * Z)) :
  last_write r (l ++ [x; (r, v)]) = Some v.
Proof.
  change (l ++ [x; (r, v)]) with (l ++ [x] ++ [(r, v)]).
  rewrite app_assoc. apply last_write_app_last.
Qed.

Lemma update_duc_config_run (st : usrp2_impl) :
  (0 < _duc_interp st)%N ->
  log2_exact_on_cubes ->
  let scale := Spec.scale (cic_interp (_duc_interp st)) in
  update_duc_config st
  = (inr tt,
     set_pokes
       (pokes st ++ [(FR_DSP_TX_INTERP_RATE, wrap32 (Z.of_N (_ddc_decim st)));
                     (FR_DSP_TX_SCALE_IQ, calculate_iq_scale_word scale scale)])
       st).
Proof.
  intros Hr Hlog scale.
  pose proof (cic_interp_range _ Hr) as Hc.
  destruct (scale_expr_spec _ Hc) as (He & Hi & Hb).
  unfold update_duc_config, bind, gets, lift, poke32, modify.
  rewrite (Hlog _ Hc). fold (scale_expr (cic_interp (_duc_interp st))
                               (B64.of_Z (Z.log2_up (Spec.gain (cic_interp (_duc_interp st)))))).
  rewrite He. cbn -[calculate_iq_scale_word to_int16 wrap32 Spec.scale].
  rewrite Hi. fold scale.
  replace (wrap32 (calculate_iq_scale_word scale scale))
    with (calculate_iq_scale_word scale scale)
    by (unfold calculate_iq_scale_word at 2, wrap32;
        rewrite Z.mod_mod by lia; reflexivity).
  rewrite <- app_assoc. reflexivity.
Qed.

(** C6. For a positive interpolation rate [r], and a C library whose
    logarithm meets [log2_exact_on_cubes], [update_duc_config] halves [r]
    while it exceeds 128 to get the coarse factor [c], and writes to the
    IQ scale register the word whose upper and lower 16 bits both hold
    [round(4096 * 2^ceil(log2(c^3)) / (1.65 * c^3))], halves rounded away
    from zero and the result clamped to 16 signed bits. The word depends
    on [r] alone, so computing it again gives it again; for [r = 16] the
    gain is 4096 and the scale 2482. *)
Theorem tx_gain_compensation (st : usrp2_impl) :
  (0 < _duc_interp st)%N ->
  log2_exact_on_cubes ->
  let r := _duc_interp st in
  let c := cic_interp r in
  let scale := Spec.scale c in
  let word := calculate_iq_scale_word scale scale in
  let st' := snd (update_duc_config st) in
  Spec.coarse_factor r c
  /\ fst (update_duc_config st) = inr tt
  /\ peek32 FR_DSP_TX_SCALE_IQ st' = Some word
  /\ Z.shiftr word 16 = scale /\ Z.land word 65535 = scale
  /\ (forall st2 : usrp2_impl,
        _duc_interp st2 = r ->
        peek32 FR_DSP_TX_SCALE_IQ (snd (update_duc_config st2)) = Some word)
  /\ (r = 16%N -> Spec.gain c = 4096 /\ scale = 2482).
Proof.
  intros Hr Hlog r c scale word st'.
  pose proof (update_duc_config_run st Hr Hlog) as Hrun.
  pose proof (cic_interp_range _ Hr) as Hc.
  destruct (scale_expr_spec _ Hc) as (_ & _ & Hb).
  destruct (iq_scale_word_halves _ Hb) as (_ & Hhi & Hlo).
  split; [apply cic_interp_coarse|].
  split; [rewrite Hrun; reflexivity|].
  split.
  { unfold st'. rewrite Hrun. unfold peek32; simpl.
    apply last_write_app_last2. }
  split; [exact Hhi|]. split; [exact Hlo|]. split.
  - intros st2 H2.
    assert (Hr2 : (0 < _duc_interp st2)%N) by (rewrite H2; exact Hr).
    rewrite (update_duc_config_run st2 Hr2 Hlog), H2. unfold peek32; simpl.
    apply last_write_app_last2.
  - intros H16. unfold scale, c. rewrite H16. split; reflexivity.
Qed.

(** ** Register synchronisation of the transmit channel *)

Lemma last_write_app (r : reg) (l l' : list (reg * Z)) :
  last_write r (l ++ l')
  = match last_write r l' with
    | Some w => Some w
    | None => last_write r l
    end.
Proof.
  induction l as [|[r' v'] l IH]; simpl.
  - destruct (last_write r l'); reflexivity.
  - rewrite IH. destruct (last_write r l'); reflexivity.
Qed.

(** C3. The specification wants the transmit interpolation register to
    mirror the transmit channel's own interpolation. What the code does: a
    successful [interp] set stores the new interpolation, and the register
    [FR_DSP_TX_INTERP_RATE] then holds the receive channel's decimation
    [_ddc_decim]. *)
Theorem tx_interp_register_holds_rx_decim (st : usrp2_impl) (new_interp : N) :
  In new_interp (_allowed_decim_and_interp_rates st) ->
  (0 < new_interp)%N ->
  log2_exact_on_cubes ->
  let res := duc_set (obj_string "interp") (obj_size_t new_interp) st in
  fst res = inr tt
  /\ _duc_interp (snd res) = new_interp
  /\ peek32 FR_DSP_TX_INTERP_RATE (snd res) = Some (wrap32 (Z.of_N (_ddc_decim st))).
Proof.
  intros Hin Hpos Hlog res.
  unfold res, duc_set, bind, as_string, as_size_t, ret, gets, modify; simpl.
  rewrite (assert_has_present _ _ _ _ Hin).
  rewrite (update_duc_config_run (set_duc_interp new_interp st) Hpos Hlog).
  simpl. repeat split; try reflexivity.
  unfold peek32; simpl. rewrite last_write_app. reflexivity.
Qed.

(** ** The rate half of the configuration invariant *)

Lemma calculate_freq_word_keeps_rates (ref : double_ref) (clk : double) (st : usrp2_impl) :
  (forall d s, _ddc_decim (store ref d s) = _ddc_decim s
               /\ _duc_interp (store ref d s) = _duc_interp s
               /\ _allowed_decim_and_interp_rates (store ref d s)
                  = _allowed_decim_and_interp_rates s) ->
  let st' := snd (calculate_freq_word_and_update_actual_freq ref clk st) in
  _ddc_decim st' = _ddc_decim st /\ _duc_interp st' = _duc_interp st
  /\ _allowed_decim_and_interp_rates st' = _allowed_decim_and_interp_rates st.
Proof.
  intros Href. unfold calculate_freq_word_and_update_actual_freq, bind, gets, lift, modify, ret.
  destruct (iround _); simpl; [repeat split; reflexivity | apply Href].
Qed.

Lemma ddc_set_keeps_rates (key val : wax_obj) (st : usrp2_impl) :
  rates_allowed st -> rates_allowed (snd (ddc_set key val st)).
Proof.
  intros [Hd Hu]. unfold ddc_set, bind, as_string.
  destruct key; try (split; assumption). unfold ret.
  destruct (String.eqb s "decim").
  { unfold as_size_t. destruct val; try (split; assumption). unfold ret, gets.
    unfold assert_has. destruct (existsb _ _) eqn:E; [|split; assumption].
    apply existsb_eqb_In in E. split; [exact E | exact Hu]. }
  destruct (String.eqb s "freq").
  { unfold as_double. destruct val; try (split; assumption). unfold ret, ASSERT_THROW.
    destruct (B64.leb d _); [|split; assumption].
    destruct (B64.leb _ d); [|split; assumption].
    unfold ret, modify.
    pose proof (calculate_freq_word_keeps_rates ref_ddc_freq master_clock_freq
                  (set_ddc_freq d st)) as K.
    simpl in K. specialize (K ltac:(intros; repeat split; reflexivity)).
    destruct (calculate_freq_word_and_update_actual_freq _ _ _) as [[e|w] st1];
      simpl in K |- *; destruct K as (K1 & K2 & K3);
      unfold rates_allowed; simpl; rewrite ?K1, ?K2, ?K3; split; assumption. }
  destruct (String.eqb s "stream_cmd").
  { unfold as_stream_cmd. destruct val; try (split; assumption). unfold ret.
    destruct (issue_ddc_stream_cmd_sends c st) as (_ & _ & Hrx & Htx & _).
    pose proof (f_equal rate Hrx) as R1. pose proof (f_equal rate Htx) as R2.
    pose proof (f_equal allowedRates Hrx) as R3. simpl in R1, R2, R3.
    unfold rates_allowed. rewrite R1, R2, R3. split; assumption. }
  split; assumption.
Qed.

Lemma duc_set_keeps_rates (key val : wax_obj) (st : usrp2_impl) :
  rates_allowed st -> rates_allowed (snd (duc_set key val st)).
Proof.
  intros [Hd Hu]. unfold duc_set, bind, as_string.
  destruct key; try (split; assumption). unfold ret.
  destruct (String.eqb s "interp").
  { unfold as_size_t. destruct val; try (split; assumption). unfold ret, gets.
    unfold assert_has. destruct (existsb _ _) eqn:E; [|split; assumption].
    apply existsb_eqb_In in E. unfold ret, modify.
    destruct (update_duc_config_keeps (set_duc_interp n st))
      as (K1 & _ & K2 & _ & K3 & _).
    simpl in K1, K2, K3. unfold rates_allowed. simpl.
    rewrite K1, K2, K3. split; assumption. }
  destruct (String.eqb s "freq").
  { unfold as_double. destruct val; try (split; assumption). unfold ret, ASSERT_THROW.
    destruct (B64.leb d _); [|split; assumption].
    destruct (B64.leb _ d); [|split; assumption].
    unfold ret, modify.
    pose proof (calculate_freq_word_keeps_rates ref_duc_freq master_clock_freq
                  (set_duc_freq d st)) as K.
    simpl in K. specialize (K ltac:(intros; repeat split; reflexivity)).
    destruct (calculate_freq_word_and_update_actual_freq _ _ _) as [[e|w] st1];
      simpl in K |- *; destruct K as (K1 & K2 & K3);
      unfold rates_allowed; simpl; rewrite ?K1, ?K2, ?K3; split; assumption. }
  split; assumption.
Qed.

(** ** What a successful frequency set leaves behind *)

(** The word written to the frequency register is the rounded product
    reduced modulo [2^32]; the frequency stored is computed back from that
    word as an unsigned number. *)
Lemma ddc_set_freq_run (st : usrp2_impl) (new_freq : double) (r : Z) :
  B64.leb new_freq half_clock = true ->
  B64.leb (B64.opp half_clock) new_freq = true ->
  iround (B64.mul (B64.div new_freq master_clock_freq) (B64.pow2 (B64.of_Z 32)))
  = inr r ->
  ddc_set (obj_string "freq") (obj_double new_freq) st
  = (inr tt,
     set_pokes (pokes st ++ [(FR_DSP_RX_FREQ, wrap32 r)])
       (set_ddc_freq
          (B64.mul (B64.div (B64.of_Z (wrap32 r)) (B64.pow2 (B64.of_Z 32)))
                   master_clock_freq) st)).
Proof.
  intros Hup Hlow Hr.
  unfold ddc_set, bind, as_string, as_double, ASSERT_THROW, ret, throw; simpl.
  fold half_clock. rewrite div_opp_l. fold half_clock. rewrite Hup, Hlow.
  unfold modify, calculate_freq_word_and_update_actual_freq, bind, gets, lift,
    modify, ret, poke32; simpl.
  rewrite Hr; simpl.
  replace (wrap32 (wrap32 r)) with (wrap32 r)
    by (unfold wrap32; rewrite Z.mod_mod by lia; reflexivity).
  reflexivity.
Qed.

Lemma duc_set_freq_run (st : usrp2_impl) (new_freq : double) (r : Z) :
  B64.leb new_freq half_clock = true ->
  B64.leb (B64.opp half_clock) new_freq = true ->
  iround (B64.mul (B64.div new_freq master_clock_freq) (B64.pow2 (B64.of_Z 32)))
  = inr r ->
  duc_set (obj_string "freq") (obj_double new_freq) st
  = (inr tt,
     set_pokes (pokes st ++ [(FR_DSP_TX_FREQ, wrap32 r)])
       (set_duc_freq
          (B64.mul (B64.div (B64.of_Z (wrap32 r)) (B64.pow2 (B64.of_Z 32)))
                   master_clock_freq) st)).
Proof.
  intros Hup Hlow Hr.
  unfold duc_set, bind, as_string, as_double, ASSERT_THROW, ret, throw; simpl.
  fold half_clock. rewrite div_opp_l. fold half_clock. rewrite Hup, Hlow.
  unfold modify, calculate_freq_word_and_update_actual_freq, bind, gets, lift,
    modify, ret, poke32; simpl.
  rewrite Hr; simpl.
  replace (wrap32 (wrap32 r)) with (wrap32 r)
    by (unfold wrap32; rewrite Z.mod_mod by lia; reflexivity).
  reflexivity.
Qed.

(** ** The getters *)

Lemma iround_raises (v : double) (e : exn) : iround v = inl e -> e = rounding_error.
Proof.
  unfold iround. destruct v as [s|s| |s m ex]; try congruence.
  destruct (_ && _); congruence.
Qed.

Lemma ddc_get_state (key : wax_obj) (st : usrp2_impl) : snd (ddc_get key st) = st.
Proof.
  unfold ddc_get, ddc_get_string, bind, as_string, ret, throw, gets.
  destruct key as [[|]|s| | | | |]; try reflexivity.
  repeat match goal with
         | |- context [String.eqb s ?k] => destruct (String.eqb s k)
         end; reflexivity.
Qed.

Lemma duc_get_state (key : wax_obj) (st : usrp2_impl) : snd (duc_get key st) = st.
Proof.
  unfold duc_get, duc_get_string, bind, as_string, ret, throw, gets.
  destruct key as [[|]|s| | | | |]; try reflexivity.
  repeat match goal with
         | |- context [String.eqb s ?k] => destruct (String.eqb s k)
         end; reflexivity.
Qed.

(** X1. Reading a property never changes the object: whatever the key and
    whether the call returns or throws, [ddc_get] and [duc_get] leave the
    state as it was. *)
Theorem get_leaves_state (key : wax_obj) (st : usrp2_impl) :
  snd (ddc_get key st) = st /\ snd (duc_get key st) = st.
Proof. split; [apply ddc_get_state | apply duc_get_state]. Qed.

Lemma ddc_get_readable (name : string) (st : usrp2_impl) :
  In name ddc_readable -> exists v, fst (ddc_get (obj_string name) st) = inr v.
Proof.
  simpl. intros [<-|[<-|[<-|[<-|[<-|[]]]]]]; eexists; reflexivity.
Qed.

Lemma duc_get_readable (name : string) (st : usrp2_impl) :
  In name duc_readable -> exists v, fst (duc_get (obj_string name) st) = inr v.
Proof.
  simpl. intros [<-|[<-|[<-|[<-|[<-|[]]]]]]; eexists; reflexivity.
Qed.

Lemma ddc_get_not_readable (name : string) (st : usrp2_impl) :
  ~ In name ddc_readable ->
  fst (ddc_get (obj_string name) st)
  = inl (invalid_argument ("error getting: unknown key with name " ++ name)).
Proof.
  intros H. unfold ddc_get, ddc_get_string, as_string, bind, ret. names_differ H.
  reflexivity.
Qed.

Lemma duc_get_not_readable (name : string) (st : usrp2_impl) :
  ~ In name duc_readable ->
  fst (duc_get (obj_string name) st)
  = inl (invalid_argument ("error getting: unknown key with name " ++ name)).
Proof.
  intros H. unfold duc_get, duc_get_string, as_string, bind, ret. names_differ H.
  reflexivity.
Qed.

Lemma In_dec_string (name : string) (l : list string) : In name l \/ ~ In name l.
Proof. destruct (in_dec string_dec name l); [left | right]; assumption. Qed.

(** X2. A string key is answered by [ddc_get] exactly when it is one of
    [if_rate], [bb_rate], [decim], [decims], [freq] (for [duc_get]:
    [interp], [interps] in place of the decimation names); every other
    name throws the unknown-key [std::invalid_argument]. The answered names
    are all in the list the channel hands out under [DSP_PROP_OTHERS], but
    the receive list also holds [stream_cmd], which cannot be read. *)
Theorem get_answers_exactly_readable (name : string) (st : usrp2_impl) :
  ((exists v, fst (ddc_get (obj_string name) st) = inr v) <-> In name ddc_readable)
  /\ (fst (ddc_get (obj_string name) st)
      = inl (invalid_argument ("error getting: unknown key with name " ++ name))
      <-> ~ In name ddc_readable)
  /\ ((exists v, fst (duc_get (obj_string name) st) = inr v) <-> In name duc_readable)
  /\ (fst (duc_get (obj_string name) st)
      = inl (invalid_argument ("error getting: unknown key with name " ++ name))
      <-> ~ In name duc_readable)
  /\ incl ddc_readable ddc_others /\ incl duc_readable duc_others
  /\ In "stream_cmd"%string ddc_others /\ ~ In "stream_cmd"%string ddc_readable.
Proof.
  split; [|split; [|split; [|split]]].
  - split; [|apply ddc_get_readable].
    intros [v Hv]. destruct (In_dec_string name ddc_readable) as [H|H]; [exact H|].
    rewrite (ddc_get_not_readable name st H) in Hv. discriminate.
  - split; [|apply ddc_get_not_readable].
    intros Hf Hin. destruct (ddc_get_readable name st Hin) as [v Hv]. congruence.
  - split; [|apply duc_get_readable].
    intros [v Hv]. destruct (In_dec_string name duc_readable) as [H|H]; [exact H|].
    rewrite (duc_get_not_readable name st H) in Hv. discriminate.
  - split; [|apply duc_get_not_readable].
    intros Hf Hin. destruct (duc_get_readable name st Hin) as [v Hv]. congruence.
  - split; [|split; [|split]].
    + intros x Hx. simpl in *. tauto.
    + intros x Hx. simpl in *. tauto.
    + simpl. tauto.
    + simpl. intros H. repeat (destruct H as [H|H]; [discriminate H|]). exact H.
Qed.

(** ** The setters *)

(** Case analysis on the innermost scrutinee of the goal, as long as there
    is one. *)
Ltac split_cases :=
  repeat (match goal with
          | |- context [match ?x with _ => _ end] =>
              lazymatch x with
              | context [match _ with _ => _ end] => fail
              | _ => destruct x eqn:?
              end
          end; cbv beta iota; simpl).

Ltac run_setter :=
  unfold ddc_set, duc_set, update_ddc_config, update_duc_config,
    issue_ddc_stream_cmd, calculate_freq_word_and_update_actual_freq,
    as_string, as_size_t, as_double, as_stream_cmd, assert_has, ASSERT_THROW,
    ctrl_send_and_recv, poke32, bind, modify, gets, lift, ret, throw; simpl.

Lemma ddc_set_settable_handled (name : string) (val : wax_obj) (st : usrp2_impl) (msg : string) :
  In name ddc_settable ->
  fst (ddc_set (obj_string name) val st) <> inl (invalid_argument msg).
Proof.
  simpl. intros [<-|[<-|[<-|[]]]]; destruct val; run_setter;
    try discriminate; split_cases; simpl; try discriminate;
    match goal with
    | H : iround _ = inl _ |- _ => apply iround_raises in H; subst; discriminate
    end.
Qed.

Lemma duc_set_settable_handled (name : string) (val : wax_obj) (st : usrp2_impl) (msg : string) :
  In name duc_settable ->
  fst (duc_set (obj_string name) val st) <> inl (invalid_argument msg).
Proof.
  simpl. intros [<-|[<-|[]]]; destruct val; run_setter;
    try discriminate; split_cases; simpl; try discriminate;
    match goal with
    | H : iround _ = inl _ |- _ => apply iround_raises in H; subst; discriminate
    end.
Qed.

Lemma ddc_set_not_settable (name : string) (val : wax_obj) (st : usrp2_impl) :
  ~ In name ddc_settable ->
  ddc_set (obj_string name) val st
  = (inl (invalid_argument ("error setting: unknown key with name " ++ name)), st).
Proof.
  intros H. unfold ddc_set, as_string, bind, ret. names_differ H. reflexivity.
Qed.

Lemma duc_set_not_settable (name : string) (val : wax_obj) (st : usrp2_impl) :
  ~ In name duc_settable ->
  duc_set (obj_string name) val st
  = (inl (invalid_argument ("error setting: unknown key with name " ++ name)), st).
Proof.
  intros H. unfold duc_set, as_string, bind, ret. names_differ H. reflexivity.
Qed.

(** X3. [ddc_set] throws [std::invalid_argument] exactly for the string
    keys other than [decim], [freq] and [stream_cmd], and [duc_set] exactly
    for those other than [interp] and [freq]; the object is then unchanged.
    So the properties the getters answer but the setters do not act on
    ([if_rate], [bb_rate], [decims], [interps]) are read-only: setting one
    is an unknown-key error, whatever the value. *)
Theorem set_unknown_key_exactly (name : string) (val : wax_obj) (st : usrp2_impl) :
  ((exists msg, fst (ddc_set (obj_string name) val st) = inl (invalid_argument msg))
   <-> ~ In name ddc_settable)
  /\ (~ In name ddc_settable ->
      ddc_set (obj_string name) val st
      = (inl (invalid_argument ("error setting: unknown key with name " ++ name)), st))
  /\ ((exists msg, fst (duc_set (obj_string name) val st) = inl (invalid_argument msg))
      <-> ~ In name duc_settable)
  /\ (~ In name duc_settable ->
      duc_set (obj_string name) val st
      = (inl (invalid_argument ("error setting: unknown key with name " ++ name)), st))
  /\ (forall k, In k ["if_rate"; "bb_rate"; "decims"]%string ->
        In k ddc_readable /\ ~ In k ddc_settable)
  /\ (forall k, In k ["if_rate"; "bb_rate"; "interps"]%string ->
        In k duc_readable /\ ~ In k duc_settable).
Proof.
  split; [|split; [|split; [|split; [|split]]]].
  - split.
    + intros [msg Hm] Hin. exact (ddc_set_settable_handled name val st msg Hin Hm).
    + intros H. eexists. rewrite (ddc_set_not_settable name val st H). reflexivity.
  - apply ddc_set_not_settable.
  - split.
    + intros [msg Hm] Hin. exact (duc_set_settable_handled name val st msg Hin Hm).
    + intros H. eexists. rewrite (duc_set_not_settable name val st H). reflexivity.
  - apply duc_set_not_settable.
  - simpl. intros k [<-|[<-|[<-|[]]]]; (split; [tauto|]);
      intros H; repeat (destruct H as [H|H]; [discriminate H|]); exact H.
  - simpl. intros k [<-|[<-|[<-|[]]]]; (split; [tauto|]);
      intros H; repeat (destruct H as [H|H]; [discriminate H|]); exact H.
Qed.

Ltac appended :=
  eexists; split;
  [ first [ symmetry; apply app_nil_r
          | reflexivity
          | rewrite <- app_assoc; reflexivity ]
  | first [ split; [reflexivity | simpl; lia] | simpl; lia ] ].

Lemma ddc_set_frame (key val : wax_obj) (st : usrp2_impl) :
  let rx := snd (ddc_set key val st) in
  tx_config rx = tx_config st
  /\ _rx_dsps rx = _rx_dsps st /\ _tx_dsps rx = _tx_dsps st
  /\ (exists l, pokes rx = pokes st ++ l
                /\ forallb (fun w => is_rx_reg (fst w)) l = true
                /\ (List.length l <= 2)%nat)
  /\ (exists l, ctrl_sent rx = ctrl_sent st ++ l /\ (List.length l <= 1)%nat).
Proof.
  cbv zeta.
  destruct key; destruct val; run_setter; split_cases;
    (split; [reflexivity|]); (split; [reflexivity|]); (split; [reflexivity|]);
    (split; appended).
Qed.

Lemma duc_set_frame (key val : wax_obj) (st : usrp2_impl) :
  let tx := snd (duc_set key val st) in
  rx_config tx = rx_config st
  /\ _rx_dsps tx = _rx_dsps st /\ _tx_dsps tx = _tx_dsps st
  /\ ctrl_sent tx = ctrl_sent st /\ ctrl_replies tx = ctrl_replies st
  /\ exists l, pokes tx = pokes st ++ l
               /\ forallb (fun w => negb (is_rx_reg (fst w))) l = true
               /\ (List.length l <= 2)%nat.
Proof.
  cbv zeta.
  destruct key; destruct val; run_setter; split_cases;
    (split; [reflexivity|]); (split; [reflexivity|]); (split; [reflexivity|]);
    (split; [reflexivity|]); (split; [reflexivity|]);
    appended.
Qed.

(** X4. Each setter stays in its own channel. Whatever the key and the
    value, and whether it returns or throws, [ddc_set] leaves the transmit
    channel's stored interpolation and frequency, the allowed rates and
    both DSP dictionaries untouched; all it does to the registers is
    append at most two writes, to receive registers only, and it sends at
    most one control request. [duc_set] likewise leaves the receive
    channel's stored decimation and frequency untouched, appends at most
    two writes, to transmit registers only, and never uses the control
    channel. *)
Theorem set_stays_in_channel (key val : wax_obj) (st : usrp2_impl) :
  let rx := snd (ddc_set key val st) in
  let tx := snd (duc_set key val st) in
  (tx_config rx = tx_config st
   /\ _rx_dsps rx = _rx_dsps st /\ _tx_dsps rx = _tx_dsps st
   /\ (exists l, pokes rx = pokes st ++ l
                 /\ forallb (fun w => is_rx_reg (fst w)) l = true
                 /\ (List.length l <= 2)%nat)
   /\ (exists l, ctrl_sent rx = ctrl_sent st ++ l /\ (List.length l <= 1)%nat))
  /\ (rx_config tx = rx_config st
      /\ _rx_dsps tx = _rx_dsps st /\ _tx_dsps tx = _tx_dsps st
      /\ ctrl_sent tx = ctrl_sent st /\ ctrl_replies tx = ctrl_replies st
      /\ exists l, pokes tx = pokes st ++ l
                   /\ forallb (fun w => negb (is_rx_reg (fst w))) l = true
                   /\ (List.length l <= 2)%nat).
Proof. split; [apply ddc_set_frame | apply duc_set_frame]. Qed.

(** X5. The stored rates stay allowed: when the decimation and the
    interpolation are both in the allowed set, they still are after any
    [ddc_set] or [duc_set], whatever the key and the value and whether the
    call returns or throws. *)
Theorem set_keeps_rates_allowed (key val : wax_obj) (st : usrp2_impl) :
  rates_allowed st ->
  rates_allowed (snd (ddc_set key val st))
  /\ rates_allowed (snd (duc_set key val st)).
Proof.
  intros H. split; [apply ddc_set_keeps_rates | apply duc_set_keeps_rates]; exact H.
Qed.

(** ** Outcomes of a frequency set *)

Lemma set_freq_cases (ref : double_ref) (addr : reg) (f : double) (st : usrp2_impl) :
  let run :=
    bind (ASSERT_THROW (B64.leb f (B64.div master_clock_freq (B64.of_Z 2)))
            "new_freq <= get_master_clock_freq()/2.0")
      (fun _ =>
         bind (ASSERT_THROW
                 (B64.leb (B64.div (B64.opp master_clock_freq) (B64.of_Z 2)) f)
                 "new_freq >= -get_master_clock_freq()/2.0")
           (fun _ =>
              bind (modify (store ref f))
                (fun _ =>
                   bind (calculate_freq_word_and_update_actual_freq ref master_clock_freq)
                     (fun word => poke32 addr word)))) in
  (forall d s, load ref (store ref d s) = d) ->
  (forall d d' s, store ref d (store ref d' s) = store ref d s) ->
  (forall d s, pokes (store ref d s) = pokes s) ->
  (forall d v s, set_pokes v (store ref d s) = store ref d (set_pokes v s)) ->
  (exists expr, run st = (inl (assert_throw_failed expr), st))
  \/ run st = (inl rounding_error, store ref f st)
  \/ exists w, 0 <= w < 2 ^ 32
       /\ run st = (inr tt, store ref (actual_freq w)
                              (set_pokes (pokes st ++ [(addr, w)]) st)).
Proof.
  intros run Hload Hstore Hpokes Hcomm. unfold run.
  unfold ASSERT_THROW, calculate_freq_word_and_update_actual_freq, poke32,
    bind, modify, gets, lift, ret, throw.
  destruct (B64.leb f _); [|left; eexists; reflexivity].
  destruct (B64.leb _ f); [|left; eexists; reflexivity].
  rewrite Hload.
  destruct (iround _) as [e|r] eqn:Hr.
  - right; left. apply iround_raises in Hr. subst e. reflexivity.
  - right; right. exists (wrap32 r). split; [apply Z.mod_pos_bound; lia|].
    rewrite Hstore, Hpokes, Hcomm.
    replace (wrap32 (wrap32 r)) with (wrap32 r)
      by (unfold wrap32; rewrite Z.mod_mod by lia; reflexivity).
    reflexivity.
Qed.

Lemma ddc_set_freq_cases (f : double) (st : usrp2_impl) :
  (exists expr, ddc_set (obj_string "freq") (obj_double f) st
                = (inl (assert_throw_failed expr), st))
  \/ ddc_set (obj_string "freq") (obj_double f) st
     = (inl rounding_error, set_ddc_freq f st)
  \/ exists w, 0 <= w < 2 ^ 32
       /\ ddc_set (obj_string "freq") (obj_double f) st
          = (inr tt, set_ddc_freq (actual_freq w)
                       (set_pokes (pokes st ++ [(FR_DSP_RX_FREQ, w)]) st)).
Proof.
  apply (set_freq_cases ref_ddc_freq FR_DSP_RX_FREQ f st); reflexivity.
Qed.

Lemma duc_set_freq_cases (f : double) (st : usrp2_impl) :
  (exists expr, duc_set (obj_string "freq") (obj_double f) st
                = (inl (assert_throw_failed expr), st))
  \/ duc_set (obj_string "freq") (obj_double f) st
     = (inl rounding_error, set_duc_freq f st)
  \/ exists w, 0 <= w < 2 ^ 32
       /\ duc_set (obj_string "freq") (obj_double f) st
          = (inr tt, set_duc_freq (actual_freq w)
                       (set_pokes (pokes st ++ [(FR_DSP_TX_FREQ, w)]) st)).
Proof.
  apply (set_freq_cases ref_duc_freq FR_DSP_TX_FREQ f st); reflexivity.
Qed.

(** X6. A frequency set that throws writes no register. Either a guard
    failed, and then the object is exactly as before; or the rounding
    raised, and then the requested frequency is already stored (the
    assignment precedes the computation of the word) although no register
    was written. Both channels. *)
Theorem failed_freq_set_writes_no_register
    (f : double) (st st' : usrp2_impl) (e : exn) :
  (ddc_set (obj_string "freq") (obj_double f) st = (inl e, st') ->
   pokes st' = pokes st
   /\ ((exists expr, e = assert_throw_failed expr) /\ st' = st
       \/ e = rounding_error /\ st' = set_ddc_freq f st))
  /\ (duc_set (obj_string "freq") (obj_double f) st = (inl e, st') ->
      pokes st' = pokes st
      /\ ((exists expr, e = assert_throw_failed expr) /\ st' = st
          \/ e = rounding_error /\ st' = set_duc_freq f st)).
Proof.
  split; intros H.
  - destruct (ddc_set_freq_cases f st) as [[expr Hc] | [Hc | (w & _ & Hc)]];
      rewrite Hc in H; inversion H; subst.
    + split; [reflexivity|]. left. split; [eexists|]; reflexivity.
    + split; [reflexivity|]. right. split; reflexivity.
  - destruct (duc_set_freq_cases f st) as [[expr Hc] | [Hc | (w & _ & Hc)]];
      rewrite Hc in H; inversion H; subst.
    + split; [reflexivity|]. left. split; [eexists|]; reflexivity.
    + split; [reflexivity|]. right. split; reflexivity.
Qed.

(** X7. After a frequency set that returns, the register and the stored
    frequency agree: exactly one write was appended, a 32-bit word to the
    channel's frequency register, the stored frequency is
    [(double(word) / 2^32) * clock] for that very word, and [get] of [freq]
    hands that frequency back. Nothing else of the object changed. *)
Theorem successful_freq_set_agrees_with_register
    (f : double) (st st' : usrp2_impl) :
  ddc_set (obj_string "freq") (obj_double f) st = (inr tt, st') ->
  exists w, 0 <= w < 2 ^ 32
    /\ pokes st' = pokes st ++ [(FR_DSP_RX_FREQ, w)]
    /\ peek32 FR_DSP_RX_FREQ st' = Some w
    /\ _ddc_freq st' = actual_freq w
    /\ ddc_get (obj_string "freq") st' = (inr (obj_double (actual_freq w)), st')
    /\ st' = set_ddc_freq (actual_freq w)
               (set_pokes (pokes st ++ [(FR_DSP_RX_FREQ, w)]) st).
Proof.
  intros H.
  destruct (ddc_set_freq_cases f st) as [[expr Hc] | [Hc | (w & Hw & Hc)]];
    rewrite Hc in H; inversion H; subst.
  exists w. split; [exact Hw|]. split; [reflexivity|].
  split; [unfold peek32; simpl; apply last_write_app_last|].
  repeat split; reflexivity.
Qed.

(** ** The sign of the stored frequency *)

Lemma not_negative_sign_clear (x : double) : not_negative x = true <-> sign_clear x.
Proof.
  unfold not_negative, B64.ltb, SFltb.
  change (B64.of_Z 0) with (S754_zero false).
  destruct x as [s|[|]| |[|] m e]; simpl; split; intros H;
    try reflexivity; try discriminate; try exact I.
Qed.

Lemma binary_round_aux_sign_clear (m e : Z) (l : location) :
  sign_clear (binary_round_aux B64.prec B64.emax false m e l).
Proof.
  unfold binary_round_aux.
  destruct (shr_fexp B64.prec B64.emax m e l) as [mrs' e'].
  destruct (shr_fexp B64.prec B64.emax _ e' loc_Exact) as [mrs'' e''].
  destruct (shr_m mrs''); simpl; try exact I.
  destruct (e'' <=? _); reflexivity.
Qed.

Lemma of_Z_sign_clear (w : Z) : 0 <= w -> sign_clear (B64.of_Z w).
Proof.
  intros Hw. unfold B64.of_Z, binary_normalize.
  destruct w as [|p|p]; [exact I| |lia].
  unfold binary_round.
  destruct (shl_align p 0 _) as [mz ez]. apply binary_round_aux_sign_clear.
Qed.

Lemma div_sign_clear (x : double) (my : positive) (ey : Z) :
  sign_clear x -> sign_clear (B64.div x (S754_finite false my ey)).
Proof.
  unfold B64.div.
  destruct x as [sx|sx| |sx mx ex]; simpl; intros Hx; subst;
    try exact I; try reflexivity.
  destruct (SFdiv_core_binary _ _ _ _ _ _) as [[mz ez] lz].
  apply binary_round_aux_sign_clear.
Qed.

Lemma mul_sign_clear (x y : double) :
  sign_clear x -> sign_clear y -> sign_clear (B64.mul x y).
Proof.
  unfold B64.mul.
  destruct x as [sx|sx| |sx mx ex], y as [sy|sy| |sy my ey]; simpl;
    intros Hx Hy; subst; try exact I; try reflexivity.
  apply binary_round_aux_sign_clear.
Qed.

Lemma actual_freq_not_negative (w : Z) :
  not_negative master_clock_freq = true -> 0 <= w ->
  not_negative (actual_freq w) = true.
Proof.
  intros Hclk Hw. apply not_negative_sign_clear.
  apply mul_sign_clear; [|apply not_negative_sign_clear; exact Hclk].
  change (B64.pow2 (B64.of_Z 32)) with (S754_finite false 4503599627370496 (-20)).
  apply div_sign_clear. apply of_Z_sign_clear. exact Hw.
Qed.

(** X8. With a master clock that is not negative, no frequency set that
    returns leaves a negative frequency stored, on either channel, whatever
    was asked for: the frequency is computed back from the register word
    taken as an unsigned number. *)
Theorem stored_freq_never_negative (f : double) (st st' : usrp2_impl) :
  not_negative master_clock_freq = true ->
  (ddc_set (obj_string "freq") (obj_double f) st = (inr tt, st') ->
   not_negative (_ddc_freq st') = true)
  /\ (duc_set (obj_string "freq") (obj_double f) st = (inr tt, st') ->
      not_negative (_duc_freq st') = true).
Proof.
  intros Hclk. split; intros H.
  - destruct (ddc_set_freq_cases f st) as [[expr Hc] | [Hc | (w & Hw & Hc)]];
      rewrite Hc in H; inversion H; subst.
    apply actual_freq_not_negative; [exact Hclk | lia].
  - destruct (duc_set_freq_cases f st) as [[expr Hc] | [Hc | (w & Hw & Hc)]];
      rewrite Hc in H; inversion H; subst.
    apply actual_freq_not_negative; [exact Hclk | lia].
Qed.

(** ** Rates: setting and reading back *)

(** X9. Setting an allowed decimation and reading back: the set returns,
    the stored decimation is the new one, [get] of [decim] hands it back
    and [get] of [bb_rate] hands back the master clock divided by it; the
    registers were synchronised by exactly two appended writes, the
    decimation (reduced modulo [2^32]) and the fixed receive scale
    [1024] in both halves; frequency and transmit channel are untouched.
    On the transmit side the stored interpolation is the new one and is
    read back by [interp] and [bb_rate] whether or not the register update
    that follows got through. *)
Theorem set_rate_then_get (new_rate : N) (st : usrp2_impl) :
  In new_rate (_allowed_decim_and_interp_rates st) ->
  let rx := snd (ddc_set (obj_string "decim") (obj_size_t new_rate) st) in
  let tx := snd (duc_set (obj_string "interp") (obj_size_t new_rate) st) in
  fst (ddc_set (obj_string "decim") (obj_size_t new_rate) st) = inr tt
  /\ ddc_get (obj_string "decim") rx = (inr (obj_size_t new_rate), rx)
  /\ ddc_get (obj_string "bb_rate") rx
     = (inr (obj_double (B64.div master_clock_freq (B64.of_N new_rate))), rx)
  /\ rx = set_pokes (pokes st ++ [(FR_DSP_RX_DECIM_RATE, Z.of_N new_rate mod 2 ^ 32);
                                 (FR_DSP_RX_SCALE_IQ, 1024 * 65536 + 1024)])
            (set_ddc_decim new_rate st)
  /\ duc_get (obj_string "interp") tx = (inr (obj_size_t new_rate), tx)
  /\ duc_get (obj_string "bb_rate") tx
     = (inr (obj_double (B64.div master_clock_freq (B64.of_N new_rate))), tx).
Proof.
  intros Hin rx tx.
  assert (Hrx : ddc_set (obj_string "decim") (obj_size_t new_rate) st
                = (inr tt,
                   set_pokes (pokes st ++ [(FR_DSP_RX_DECIM_RATE, Z.of_N new_rate mod 2 ^ 32);
                                           (FR_DSP_RX_SCALE_IQ, 1024 * 65536 + 1024)])
                     (set_ddc_decim new_rate st))).
  { unfold ddc_set, bind, as_string, as_size_t, ret, gets, modify; simpl.
    rewrite (assert_has_present _ _ _ _ Hin).
    unfold update_ddc_config, bind, gets, poke32, modify; simpl.
    rewrite <- app_assoc. reflexivity. }
  assert (Htx : _duc_interp tx = new_rate).
  { unfold tx, duc_set, bind, as_string, as_size_t, ret, gets, modify; simpl.
    rewrite (assert_has_present _ _ _ _ Hin).
    destruct (update_duc_config_keeps (set_duc_interp new_rate st)) as (K & _).
    exact K. }
  unfold rx. rewrite Hrx. simpl.
  split; [reflexivity|]. split; [reflexivity|]. split; [reflexivity|].
  split; [reflexivity|].
  unfold duc_get, duc_get_string, bind, as_string, gets, ret; simpl.
  rewrite Htx. split; reflexivity.
Qed.

(** ** The IQ scale word *)

Lemma iq_scale_word_arith (i q : Z) :
  calculate_iq_scale_word i q = (i mod 65536) * 65536 + q mod 65536.
Proof.
  unfold calculate_iq_scale_word, to_uint16, wrap32.
  change (2 ^ 16) with 65536. change (2 ^ 32) with 4294967296.
  pose proof (Z.mod_pos_bound i 65536 ltac:(lia)) as Hi.
  pose proof (Z.mod_pos_bound q 65536 ltac:(lia)) as Hq.
  rewrite Z.shiftl_0_r.
  rewrite lor_shiftl_add by (change (2 ^ 16) with 65536; lia).
  change (2 ^ 16) with 65536.
  apply Z.mod_small. lia.
Qed.

Lemma to_int16_of_uint16 (z : Z) :
  - 2 ^ 15 <= z < 2 ^ 15 -> to_int16 (z mod 65536) = z.
Proof.
  intros Hz. unfold to_int16.
  change (2 ^ 15) with 32768 in *. change (2 ^ 16) with 65536.
  destruct (Z_lt_le_dec z 0) as [Hneg | Hpos].
  - replace (z mod 65536) with (z + 65536)
      by (apply Z.mod_unique with (-1); lia).
    replace ((z + 65536 + 32768) mod 65536) with (z + 32768)
      by (apply Z.mod_unique with 1; lia).
    lia.
  - rewrite (Z.mod_small z) by lia.
    rewrite Z.mod_small by lia. lia.
Qed.

Lemma iq_scale_word_unpack (i q : Z) :
  - 2 ^ 15 <= i < 2 ^ 15 -> - 2 ^ 15 <= q < 2 ^ 15 ->
  let word := calculate_iq_scale_word i q in
  0 <= word < 2 ^ 32
  /\ to_int16 (Z.shiftr word 16) = i
  /\ to_int16 (Z.land word 65535) = q.
Proof.
  intros Hi Hq word. unfold word. rewrite iq_scale_word_arith.
  pose proof (Z.mod_pos_bound i 65536 ltac:(lia)) as Bi.
  pose proof (Z.mod_pos_bound q 65536 ltac:(lia)) as Bq.
  split; [change (2 ^ 32) with 4294967296; lia|]. split.
  - rewrite Z.shiftr_div_pow2 by lia. change (2 ^ 16) with 65536.
    replace ((i mod 65536 * 65536 + q mod 65536) / 65536) with (i mod 65536)
      by (apply Z.div_unique with (q mod 65536); lia).
    apply to_int16_of_uint16. exact Hi.
  - rewrite land_65535.
    replace ((i mod 65536 * 65536 + q mod 65536) mod 65536) with (q mod 65536)
      by (apply Z.mod_unique with (i mod 65536); lia).
    apply to_int16_of_uint16. exact Hq.
Qed.

(** X10. The IQ scale word packs and unpacks: for 16-bit signed [i] and
    [q] the word is a 32-bit value whose upper half, read back as a signed
    16-bit number, is [i], and whose lower half is [q]. Neither half
    disturbs the other, negative values included. *)
Theorem iq_scale_word_round_trip (i q : Z) :
  - 2 ^ 15 <= i < 2 ^ 15 -> - 2 ^ 15 <= q < 2 ^ 15 ->
  let word := calculate_iq_scale_word i q in
  0 <= word < 2 ^ 32
  /\ to_int16 (Z.shiftr word 16) = i
  /\ to_int16 (Z.land word 65535) = q.
Proof. exact (iq_scale_word_unpack i q). Qed.

(** ** The transmit register update, whatever the C library *)

Lemma to_int16_range (z : Z) : - 2 ^ 15 <= to_int16 z < 2 ^ 15.
Proof.
  unfold to_int16. change (2 ^ 15) with 32768. change (2 ^ 16) with 65536.
  pose proof (Z.mod_pos_bound (z + 32768) 65536 ltac:(lia)). lia.
Qed.

(** X11. [update_duc_config] writes both transmit registers or none. For
    every state and every [std::log]: either the scale computation raises
    [rounding_error] and the object is exactly as before, or the call
    returns after appending two writes, the interpolation-rate register and
    the IQ scale register, and the scale register holds one and the same
    signed 16-bit value in its upper and in its lower half. *)
Theorem update_duc_config_all_or_nothing (st : usrp2_impl) :
  update_duc_config st = (inl rounding_error, st)
  \/ exists scale : Z,
       - 2 ^ 15 <= scale < 2 ^ 15
       /\ update_duc_config st
          = (inr tt,
             set_pokes
               (pokes st ++ [(FR_DSP_TX_INTERP_RATE, Z.of_N (_ddc_decim st) mod 2 ^ 32);
                             (FR_DSP_TX_SCALE_IQ, calculate_iq_scale_word scale scale)])
               st)
       /\ to_int16 (Z.shiftr (calculate_iq_scale_word scale scale) 16) = scale
       /\ to_int16 (Z.land (calculate_iq_scale_word scale scale) 65535) = scale.
Proof.
  unfold update_duc_config, bind, gets, lift, poke32, modify.
  destruct (iround _) as [e|r] eqn:Hr.
  - left. apply iround_raises in Hr. subst e. reflexivity.
  - right. exists (to_int16 r).
    pose proof (to_int16_range r) as Hs.
    destruct (iq_scale_word_unpack _ _ Hs Hs) as (Hw & Hhi & Hlo).
    split; [exact Hs|]. split; [|split; [exact Hhi | exact Hlo]].
    cbn -[calculate_iq_scale_word to_int16 wrap32].
    replace (wrap32 (calculate_iq_scale_word (to_int16 r) (to_int16 r)))
      with (calculate_iq_scale_word (to_int16 r) (to_int16 r))
      by (symmetry; apply Z.mod_small; exact Hw).
    rewrite <- app_assoc. reflexivity.
Qed.

Lemma div_by_zero_not_finite (y : double) :
  iround (B64.div y (S754_zero false)) = inl rounding_error.
Proof. destruct y as [s|s| |s m e]; reflexivity. Qed.

(** X12. Interpolation zero. If the allowed set holds 0, setting [interp]
    to 0 passes validation and stores it, and then the scale computation
    divides by [1.65 * 0]: the quotient is an infinity or NaN whatever
    [std::log] returned, the rounding raises, and the call throws with the
    new interpolation stored and no register written. *)
Theorem set_interp_zero_raises (st : usrp2_impl) :
  In 0%N (_allowed_decim_and_interp_rates st) ->
  duc_set (obj_string "interp") (obj_size_t 0) st
  = (inl rounding_error, set_duc_interp 0 st).
Proof.
  intros Hin.
  unfold duc_set, bind, as_string, as_size_t, ret, gets, modify; simpl.
  rewrite (assert_has_present _ _ _ _ Hin).
  unfold update_duc_config, bind, gets, lift; simpl.
  change (B64.mul (B64.div (B64.of_Z 165) (B64.of_Z 100)) (B64.cube (B64.of_N 0)))
    with (S754_zero false).
  rewrite div_by_zero_not_finite. reflexivity.
Qed.

(** ** The coarse factor and the range of the scale *)

(** X13. The halving loop: a rate up to 128 is its own coarse factor; a
    rate above 128 ends between 64 and 128; the result is never above the
    rate and halving it again changes nothing. *)
Theorem cic_interp_bounds (r : N) :
  ((r <= 128)%N -> cic_interp r = r)
  /\ ((128 < r)%N -> (64 <= cic_interp r <= 128)%N)
  /\ (cic_interp r <= r)%N
  /\ cic_interp (cic_interp r) = cic_interp r.
Proof.
  assert (Hsmall : forall n, (n <= 128)%N -> cic_interp n = n).
  { intros n Hn. rewrite cic_interp_loop.
    destruct (N.ltb_spec 128 n); [lia | reflexivity]. }
  assert (Hle : forall n, (cic_interp n <= 128)%N).
  { intros n. destruct (cic_interp_coarse n) as (j & _ & H & _). exact H. }
  split; [apply Hsmall|]. split; [|split].
  - induction r as [r IH] using (well_founded_induction N.lt_wf_0).
    intros Hr. rewrite cic_interp_loop.
    destruct (N.ltb_spec 128 r) as [_|]; [|lia].
    assert (H64 : (64 <= r / 2)%N).
    { apply N.div_le_lower_bound; lia. }
    destruct (N.le_gt_cases (r / 2) 128) as [Hs | Hb].
    + rewrite (Hsmall _ Hs). lia.
    + apply IH; [apply N.div_lt; lia | exact Hb].
  - induction r as [r IH] using (well_founded_induction N.lt_wf_0).
    rewrite cic_interp_loop.
    destruct (N.ltb_spec 128 r) as [Hr|]; [|lia].
    assert (Hlt : (r / 2 < r)%N) by (apply N.div_lt; lia).
    specialize (IH _ Hlt). lia.
  - apply Hsmall. apply Hle.
Qed.

Lemma scale_in_band_table :
  forallb scale_in_band (map N.of_nat (seq 1 128)) = true.
Proof. vm_compute. reflexivity. Qed.

Lemma is_pow2_spec (c : N) : is_pow2 c = true <-> exists k : N, c = (2 ^ k)%N.
Proof.
  unfold is_pow2. rewrite N.eqb_eq. split.
  - intros H. exists (N.log2 c). symmetry. exact H.
  - intros [k ->]. rewrite N.log2_pow2 by lia. reflexivity.
Qed.

(** X14. The band of the transmit scale. For a positive interpolation rate
    and a C library meeting [log2_exact_on_cubes], the value in each half
    of the IQ scale register lies between 2482 and 4906, and it is 2482
    exactly when the coarse factor is a power of two (the gain is then a
    power of two and needs only the constant [4096 / 1.65]). *)
Theorem tx_scale_band (st : usrp2_impl) :
  (0 < _duc_interp st)%N ->
  log2_exact_on_cubes ->
  exists scale : Z,
    peek32 FR_DSP_TX_SCALE_IQ (snd (update_duc_config st))
    = Some (scale * 65536 + scale)
    /\ 2482 <= scale <= 4906
    /\ (scale = 2482 <-> exists k : N, cic_interp (_duc_interp st) = (2 ^ k)%N).
Proof.
  intros Hr Hlog.
  pose proof (cic_interp_range _ Hr) as Hc.
  set (c := cic_interp (_duc_interp st)) in *.
  exists (Spec.scale c).
  destruct (scale_expr_spec c Hc) as (_ & _ & Hb).
  destruct (iq_scale_word_halves _ Hb) as (Hw & _ & _).
  assert (Hin : In c (map N.of_nat (seq 1 128))).
  { apply in_map_iff. exists (N.to_nat c). split; [apply N2Nat.id|].
    apply in_seq. lia. }
  pose proof (proj1 (forallb_forall _ _) scale_in_band_table c Hin) as H.
  unfold scale_in_band in H.
  apply andb_true_iff in H. destruct H as [H H3].
  apply andb_true_iff in H. destruct H as [H1 H2].
  apply Z.leb_le in H1, H2. apply Bool.eqb_prop in H3.
  split; [|split; [lia|]].
  - rewrite (update_duc_config_run st Hr Hlog). unfold peek32; simpl.
    fold c. rewrite Hw. apply last_write_app_last2.
  - rewrite <- is_pow2_spec, <- H3. symmetry. apply Z.eqb_eq.
Qed.

(** ** Requests on the wire *)

Lemma htonl_inj (x y : Z) : htonl x = htonl y -> wrap32 x = wrap32 y.
Proof.
  intros H. rewrite <- (wire_value_htonl x), <- (wire_value_htonl y), H. reflexivity.
Qed.

Lemma htonl_reads_wire (x : Z) : 0 <= x < 2 ^ 32 -> htonl x = wire_value x.
Proof.
  intros Hx. unfold htonl, wire_value, wire_bytes, wrap32.
  rewrite (Z.mod_small x) by exact Hx.
  destruct host_little_endian.
  - destruct (bytes_split x Hx) as (b3 & b2 & b1 & b0 & (H3 & H2 & H1 & H0) & ->).
    destruct (byte_fields b3 b2 b1 b0 H3 H2 H1 H0) as (E3 & E2 & E1 & E0).
    rewrite bswap32_arith, E3, E2, E1, E0.
    rewrite bytes_of_sum by assumption. unfold be_decode; simpl. lia.
  - symmetry. apply be_decode_be_bytes. exact Hx.
Qed.

Lemma encode_on_the_wire (cmd : stream_cmd_t) :
  encode_stream_cmd (on_the_wire cmd) = encode_stream_cmd cmd.
Proof.
  unfold on_the_wire, encode_stream_cmd.
  destruct (stream_mode cmd) eqn:E; simpl; rewrite ?E; reflexivity.
Qed.

Lemma now_flag_inj (a b : bool) :
  (if a then 1 else 0) = (if b then 1 else 0) -> a = b.
Proof. destruct a, b; intros H; try reflexivity; discriminate. Qed.

(** X15. What the firmware can tell apart. Two stream commands whose
    fields fit the request produce the same request exactly when they
    agree once STOP_CONTINUOUS is read as NUM_SAMPS_AND_DONE with zero
    samples: the encoding loses nothing else, and it cannot distinguish a
    stop from a request for zero samples. Either host byte order. *)
Theorem stream_cmd_encoding_kernel (c1 c2 : stream_cmd_t) :
  fits_request c1 -> fits_request c2 ->
  (encode_stream_cmd c1 = encode_stream_cmd c2 <-> on_the_wire c1 = on_the_wire c2).
Proof.
  intros (Hn1 & Hs1 & Ht1) (Hn2 & Hs2 & Ht2). split.
  - intros H.
    destruct c1 as [m1 n1 now1 [s1 t1]], c2 as [m2 n2 now2 [s2 t2]].
    unfold encode_stream_cmd in H. simpl in *.
    injection H as Hnow Hsecs Hticks Hcont Hchain Hnum.
    apply now_flag_inj in Hnow. apply htonl_inj in Hsecs, Hticks.
    unfold wrap32 in Hsecs, Hticks.
    rewrite !Z.mod_small in Hsecs, Hticks by assumption. subst.
    unfold on_the_wire; simpl.
    destruct m1, m2; simpl in *; try discriminate;
      apply htonl_inj in Hnum; unfold wrap32 in Hnum;
      rewrite ?Z.mod_small in Hnum by lia;
      try (apply N2Z.inj in Hnum); try reflexivity;
      try (f_equal; lia).
  - intros H. rewrite <- (encode_on_the_wire c1), <- (encode_on_the_wire c2), H.
    reflexivity.
Qed.

(** X16. When a stream command is accepted. With replies whose identifier
    is a 32-bit value, [issue_ddc_stream_cmd] returns exactly when a reply
    is there and its identifier, read off the wire in network byte order,
    is the acknowledgment identifier (the code decodes it with [htonl],
    which is its own inverse on either host); it throws the transport
    failure exactly when no reply is there. In every case the request was
    sent once and one reply, if any, was consumed. *)
Theorem stream_cmd_accepted_iff (cmd : stream_cmd_t) (st : usrp2_impl) :
  Forall (fun r => 0 <= id r < 2 ^ 32) (ctrl_replies st) ->
  let res := issue_ddc_stream_cmd cmd st in
  (fst res = inr tt
   <-> exists r rest, ctrl_replies st = r :: rest
         /\ wire_value (id r) = USRP2_CTRL_ID_GOT_THAT_STREAM_COMMAND_DUDE)
  /\ (fst res = inl no_ctrl_response <-> ctrl_replies st = [])
  /\ ctrl_sent (snd res) = ctrl_sent st ++ [encode_stream_cmd cmd]
  /\ ctrl_replies (snd res) = tl (ctrl_replies st).
Proof.
  intros Hid res.
  destruct (issue_ddc_stream_cmd_sends cmd st) as (Hs & Hr & _).
  pose proof (issue_ddc_stream_cmd_result cmd st) as Hres. fold res in Hres, Hs, Hr.
  split; [|split; [|split; assumption]].
  - rewrite Hres. destruct (ctrl_replies st) as [|r rest].
    + split; [discriminate | intros (r & rest & H & _); discriminate].
    + inversion Hid as [|? ? Hr0 _]; subst.
      rewrite (htonl_reads_wire _ Hr0).
      destruct (Z.eqb_spec (wire_value (id r)) USRP2_CTRL_ID_GOT_THAT_STREAM_COMMAND_DUDE)
        as [E | E].
      * split; [intros _; exists r, rest; split; [reflexivity | exact E] | reflexivity].
      * split; [discriminate|]. intros (r' & rest' & H & E').
        injection H as <- <-. contradiction.
  - rewrite Hres. destruct (ctrl_replies st) as [|r rest].
    + split; reflexivity.
    + split; [|discriminate]. destruct (_ =? _); discriminate.
Qed.

(** ** Sequences of calls *)

Lemma run_call_keeps (c : prop_call) (st : usrp2_impl) :
  let st' := run_call c st in
  (rates_allowed st -> rates_allowed st')
  /\ _allowed_decim_and_interp_rates st' = _allowed_decim_and_interp_rates st
  /\ _rx_dsps st' = _rx_dsps st /\ _tx_dsps st' = _tx_dsps st
  /\ (exists l, pokes st' = pokes st ++ l)
  /\ (exists l, ctrl_sent st' = ctrl_sent st ++ l).
Proof.
  destruct c as [key | key val | key | key val]; simpl.
  - rewrite ddc_get_state. split; [tauto|]. repeat (split; [reflexivity|]).
    split; exists []; symmetry; apply app_nil_r.
  - destruct (ddc_set_frame key val st) as (Ht & Hr & Hx & (l & Hl & _) & (l' & Hl' & _)).
    split; [apply ddc_set_keeps_rates|].
    split; [exact (f_equal allowedRates Ht)|].
    split; [exact Hr|]. split; [exact Hx|].
    split; [exists l; exact Hl | exists l'; exact Hl'].
  - rewrite duc_get_state. split; [tauto|]. repeat (split; [reflexivity|]).
    split; exists []; symmetry; apply app_nil_r.
  - destruct (duc_set_frame key val st) as (Ht & Hr & Hx & Hs & _ & (l & Hl & _)).
    split; [apply duc_set_keeps_rates|].
    split; [exact (f_equal allowedRates Ht)|].
    split; [exact Hr|]. split; [exact Hx|].
    split; [exists l; exact Hl | exists []; rewrite Hs; symmetry; apply app_nil_r].
Qed.

(** X17. Over any sequence of [get] and [set] calls on the two channels,
    in any order and with any keys and values, returning or throwing: the
    stored decimation and interpolation stay in the allowed set if they
    started there, the allowed set and the two DSP dictionaries are never
    changed, and the logs of register writes and of control requests only
    grow at the end (nothing written or sent is ever taken back). *)
Theorem calls_keep_rates_and_logs (cs : list prop_call) (st : usrp2_impl) :
  rates_allowed st ->
  let st' := run_calls cs st in
  rates_allowed st'
  /\ _allowed_decim_and_interp_rates st' = _allowed_decim_and_interp_rates st
  /\ _rx_dsps st' = _rx_dsps st /\ _tx_dsps st' = _tx_dsps st
  /\ (exists l, pokes st' = pokes st ++ l)
  /\ (exists l, ctrl_sent st' = ctrl_sent st ++ l).
Proof.
  revert st. induction cs as [|c cs IH]; intros st Hst; simpl.
  - split; [exact Hst|]. repeat (split; [reflexivity|]).
    split; exists []; symmetry; apply app_nil_r.
  - destruct (run_call_keeps c st) as (K1 & K2 & K3 & K4 & (l1 & K5) & (l2 & K6)).
    destruct (IH (run_call c st) (K1 Hst)) as (J1 & J2 & J3 & J4 & (m1 & J5) & (m2 & J6)).
    unfold run_calls in *. simpl.
    split; [exact J1|]. split; [rewrite J2; exact K2|].
    split; [rewrite J3; exact K3|]. split; [rewrite J4; exact K4|].
    split.
    + exists (l1 ++ m1). rewrite J5, K5, app_assoc. reflexivity.
    + exists (l2 ++ m2). rewrite J6, K6, app_assoc. reflexivity.
Qed.

(** ** Results of the initialisations *)

(** X18. What the initialisations return. [init_ddc_config] returns or
    throws just as the stop command it ends with does on the replies that
    are waiting: it throws when the device does not acknowledge, with the
    receive channel configured all the same. [init_duc_config], with a C
    library meeting [log2_exact_on_cubes], returns after writing the scale
    2482 to both halves of the scale register and, to the
    interpolation-rate register, whatever decimation the receive channel
    holds at that moment. *)
Theorem init_results (st : usrp2_impl) :
  log2_exact_on_cubes ->
  fst (init_ddc_config st)
  = fst (issue_ddc_stream_cmd (stream_cmd_of_mode STREAM_MODE_STOP_CONTINUOUS) st)
  /\ init_duc_config st
     = (inr tt,
        set_pokes
          (pokes st ++ [(FR_DSP_TX_INTERP_RATE, Z.of_N (_ddc_decim st) mod 2 ^ 32);
                        (FR_DSP_TX_SCALE_IQ, 2482 * 65536 + 2482)])
          (set_duc_freq (B64.of_Z 0)
             (set_duc_interp 16 (set_tx_dsps (dict_set "duc0" (_tx_dsps st)) st)))).
Proof.
  intros Hlog. split.
  - unfold init_ddc_config, update_ddc_config, bind, modify, gets, poke32.
    cbn -[issue_ddc_stream_cmd stream_cmd_of_mode].
    rewrite !issue_ddc_stream_cmd_result. reflexivity.
  - unfold init_duc_config, bind, modify.
    cbn -[update_duc_config].
    rewrite update_duc_config_run by (try reflexivity; exact Hlog).
    reflexivity.
Qed.

End Usrp2.

(** ** The model run on the sample device *)

Local Abbreviation rx_set :=
  (ddc_set usrp2_master_clock true
     sample_id_send_stream_command sample_id_got_stream_command).
Local Abbreviation tx_set := (duc_set usrp2_master_clock RefLibm.log).
Local Abbreviation rx_stream_cmd :=
  (issue_ddc_stream_cmd true
     sample_id_send_stream_command sample_id_got_stream_command).

Lemma same_eq (x y : double) : B64.same x y = true -> x = y.
Proof.
  destruct x as [a|a| |a m e], y as [b|b| |b n f]; simpl; try discriminate;
    try reflexivity.
  - intros H. apply Bool.eqb_prop in H. congruence.
  - intros H. apply Bool.eqb_prop in H. congruence.
  - intros H. apply andb_true_iff in H. destruct H as [H He].
    apply andb_true_iff in H. destruct H as [Hs Hm].
    apply Bool.eqb_prop in Hs. apply Pos.eqb_eq in Hm. apply Z.eqb_eq in He.
    congruence.
Qed.

Lemma ref_log2_table :
  forallb (fun c => B64.same (B64.ceil (log2 RefLibm.log (B64.cube (B64.of_N c))))
                             (B64.of_Z (Z.log2_up (Spec.gain c))))
          (map N.of_nat (seq 1 128)) = true.
Proof. vm_compute. reflexivity. Qed.

(** The reference logarithm delivers what the compensation needs. *)
Lemma ref_log2_exact_on_cubes : log2_exact_on_cubes RefLibm.log.
Proof.
  intros c Hc. apply same_eq.
  apply (proj1 (forallb_forall _ _) ref_log2_table c).
  apply in_map_iff. exists (N.to_nat c). split; [apply N2Nat.id|].
  apply in_seq. lia.
Qed.

(** Both initialisations, run on the object as it is after power-on, give
    the initial configuration. *)
Lemma init_reaches_configured :
  let rx := init_ddc_config true sample_id_send_stream_command
              sample_id_got_stream_command 0 true {| secs := 0; ticks := 0 |}
              powered_on in
  fst rx = inr tt /\ init_duc_config RefLibm.log (snd rx) = (inr tt, configured).
Proof. vm_compute. split; reflexivity. Qed.

(** At exactly half the clock the product is [2^31], one more than the
    largest [int]: [boost::math::iround] raises, after the requested
    frequency was stored and before any register is written. *)
Lemma set_freq_half_clock_raises :
  rx_set (obj_string "freq") (obj_double (B64.of_Z 50000000)) configured
  = (inl rounding_error, set_ddc_freq (B64.of_Z 50000000) configured).
Proof. vm_compute. reflexivity. Qed.

(** C1. On the 100 MHz device, tuning to a quarter of the clock gives the
    word [2^30] and stores exactly 25 MHz. Tuning to minus a quarter of the
    clock gives the word [2^32 - 2^30], which read as two's complement is
    [-2^30] and stands for -25 MHz; the frequency the code stores is that of
    the word read as unsigned, 75 MHz. Both channels behave alike. *)
Theorem actual_freq_reads_word_unsigned :
  let quarter := obj_double (B64.of_Z 25000000) in
  let minus_quarter := obj_double (B64.of_Z (- 25000000)) in
  rx_set (obj_string "freq") quarter configured
  = (inr tt, set_pokes (pokes configured ++ [(FR_DSP_RX_FREQ, 2 ^ 30)])
               (set_ddc_freq (B64.of_Z 25000000) configured))
  /\ rx_set (obj_string "freq") minus_quarter configured
  = (inr tt, set_pokes (pokes configured ++ [(FR_DSP_RX_FREQ, 2 ^ 32 - 2 ^ 30)])
               (set_ddc_freq (B64.of_Z 75000000) configured))
  /\ tx_set (obj_string "freq") minus_quarter configured
  = (inr tt, set_pokes (pokes configured ++ [(FR_DSP_TX_FREQ, 2 ^ 32 - 2 ^ 30)])
               (set_duc_freq (B64.of_Z 75000000) configured))
  /\ to_int32 (2 ^ 32 - 2 ^ 30) = - 2 ^ 30
  /\ B64.mul (B64.div (B64.of_Z (to_int32 (2 ^ 32 - 2 ^ 30))) (B64.pow2 (B64.of_Z 32)))
             usrp2_master_clock
     = B64.of_Z (- 25000000)
  /\ B64.of_Z 75000000 <> B64.of_Z (- 25000000).
Proof.
  vm_compute. repeat split; try reflexivity. discriminate.
Qed.

(** C2. The initial configuration meets the invariant on both channels.
    One successful [freq] set later, with minus a quarter of the clock, the
    stored frequency is 75 MHz, beyond half the clock: the invariant is
    broken, and the setter itself rejects the value it stored when it is
    handed back. *)
Theorem nyquist_invariant_broken_by_negative_freq :
  let minus_quarter := obj_double (B64.of_Z (- 25000000)) in
  let rx := rx_set (obj_string "freq") minus_quarter configured in
  let tx := tx_set (obj_string "freq") minus_quarter configured in
  config_invariant usrp2_master_clock (rx_config configured)
  /\ config_invariant usrp2_master_clock (tx_config configured)
  /\ fst rx = inr tt
  /\ ~ config_invariant usrp2_master_clock (rx_config (snd rx))
  /\ fst (rx_set (obj_string "freq") (obj_double (_ddc_freq (snd rx))) (snd rx))
     = inl (assert_throw_failed "new_freq <= get_master_clock_freq()/2.0")
  /\ fst tx = inr tt
  /\ ~ config_invariant usrp2_master_clock (tx_config (snd tx))
  /\ fst (tx_set (obj_string "freq") (obj_double (_duc_freq (snd tx))) (snd tx))
     = inl (assert_throw_failed "new_freq <= get_master_clock_freq()/2.0").
Proof.
  intros minus_quarter rx tx.
  assert (Hrx : nyquist_ok usrp2_master_clock (rx_config (snd rx)) = false)
    by (vm_compute; reflexivity).
  assert (Htx : nyquist_ok usrp2_master_clock (tx_config (snd tx)) = false)
    by (vm_compute; reflexivity).
  split; [split; [simpl; tauto | vm_compute; reflexivity]|].
  split; [split; [simpl; tauto | vm_compute; reflexivity]|].
  split; [vm_compute; reflexivity|].
  split; [intros [_ H]; rewrite Hrx in H; discriminate|].
  split; [vm_compute; reflexivity|].
  split; [vm_compute; reflexivity|].
  split; [intros [_ H]; rewrite Htx in H; discriminate|].
  vm_compute; reflexivity.
Qed.

(** C3 on the sample device: after [interp] is set to 32 on the initial
    configuration the stored interpolation is 32 and the register holds 16,
    the decimation of the receive channel. *)
Lemma tx_interp_register_holds_rx_decim_witness :
  let res := tx_set (obj_string "interp") (obj_size_t 32) configured in
  fst res = inr tt
  /\ _duc_interp (snd res) = 32%N
  /\ peek32 FR_DSP_TX_INTERP_RATE (snd res) = Some 16.
Proof.
  apply (tx_interp_register_holds_rx_decim usrp2_master_clock RefLibm.log
           configured 32).
  - simpl. tauto.
  - reflexivity.
  - exact ref_log2_exact_on_cubes.
Defined.

(** C4 on the sample device: 60 MHz is beyond half of 100 MHz. *)
Lemma set_freq_beyond_nyquist_rejected_witness :
  rx_set (obj_string "freq") (obj_double (B64.of_Z 60000000)) configured
  = (inl (assert_throw_failed "new_freq <= get_master_clock_freq()/2.0"), configured)
  /\ tx_set (obj_string "freq") (obj_double (B64.of_Z 60000000)) configured
  = (inl (assert_throw_failed "new_freq <= get_master_clock_freq()/2.0"), configured).
Proof.
  apply (set_freq_beyond_nyquist_rejected usrp2_master_clock RefLibm.log true
           sample_id_send_stream_command sample_id_got_stream_command
           configured (B64.of_Z 60000000)).
  vm_compute. reflexivity.
Defined.

(** C5 on the sample device: 3 is not an allowed rate. *)
Lemma set_rate_not_allowed_rejected_witness :
  rx_set (obj_string "decim") (obj_size_t 3) configured
  = (inl (assert_has_failed "usrp2 decimation" 3), configured)
  /\ tx_set (obj_string "interp") (obj_size_t 3) configured
  = (inl (assert_has_failed "usrp2 interpolation" 3), configured).
Proof.
  assert (H : ~ In 3%N (_allowed_decim_and_interp_rates configured)).
  { simpl. intros H.
    repeat (destruct H as [H | H]; [discriminate H|]). exact H. }
  destruct (set_rate_not_allowed_rejected usrp2_master_clock RefLibm.log true
              sample_id_send_stream_command sample_id_got_stream_command
              configured 3 H) as (Hrx & Htx & _).
  split; [exact Hrx | exact Htx].
Defined.

(** C6 on the sample device, with the reference logarithm: interpolation
    16 puts 2482 into both halves of the scale register. *)
Lemma tx_gain_compensation_witness :
  let st' := snd (update_duc_config RefLibm.log configured) in
  fst (update_duc_config RefLibm.log configured) = inr tt
  /\ peek32 FR_DSP_TX_SCALE_IQ st' = Some (2482 * 65536 + 2482)
  /\ Z.shiftr (2482 * 65536 + 2482) 16 = 2482
  /\ Z.land (2482 * 65536 + 2482) 65535 = 2482.
Proof.
  destruct (tx_gain_compensation RefLibm.log configured eq_refl
              ref_log2_exact_on_cubes) as (_ & Hok & Hpeek & Hhi & Hlo & _).
  split; [exact Hok|]. split; [exact Hpeek|]. split; [exact Hhi | exact Hlo].
Defined.

(** C7 on the sample device: a thousand samples, then more. *)
Lemma stream_cmd_mode_table_witness :
  let cmd := {| stream_mode := STREAM_MODE_NUM_SAMPS_AND_MORE; num_samps := 1000;
                stream_now := true; time_spec := {| secs := 0; ticks := 0 |} |} in
  let out_data := encode_stream_cmd true sample_id_send_stream_command cmd in
  (sc_continuous out_data, sc_chain out_data, wire_value true (sc_num_samps out_data))
  = (0, 1, 1000)
  /\ ctrl_sent (snd (rx_stream_cmd cmd configured)) = ctrl_sent configured ++ [out_data].
Proof.
  intros cmd out_data.
  apply (stream_cmd_mode_table true sample_id_send_stream_command
           sample_id_got_stream_command cmd configured).
  reflexivity.
Defined.

(** C8 on the sample device: the first reply is not an acknowledgment, the
    second is. *)
Lemma stream_cmd_ack_mismatch_witness :
  let st := set_ctrl [] [sample_nak; sample_ack] configured in
  let stop := stream_cmd_of_mode 0 true {| secs := 0; ticks := 0 |}
                STREAM_MODE_STOP_CONTINUOUS in
  let start := stream_cmd_of_mode 0 true {| secs := 0; ticks := 0 |}
                 STREAM_MODE_START_CONTINUOUS in
  let st' := snd (rx_stream_cmd start st) in
  fst (rx_stream_cmd start st) = inl (assert_throw_failed ack_assertion)
  /\ rx_config st' = rx_config st /\ tx_config st' = tx_config st
  /\ pokes st' = pokes st
  /\ fst (rx_stream_cmd stop st') = inr tt.
Proof.
  intros st stop start st'.
  assert (Hne : htonl true (id sample_nak) <> sample_id_got_stream_command)
    by (vm_compute; discriminate).
  destruct (stream_cmd_ack_mismatch usrp2_master_clock true
              sample_id_send_stream_command sample_id_got_stream_command
              start st sample_nak [sample_ack] eq_refl Hne)
    as (_ & Hfail & _ & _ & Hrx & Htx & Hp & Hnext).
  split; [exact Hfail|]. split; [exact Hrx|]. split; [exact Htx|].
  split; [exact Hp|].
  apply (Hnext stop sample_ack []); reflexivity.
Defined.

(** C9 on the sample device: neither channel knows a property [gain]. *)
Lemma unknown_property_rejected_witness :
  fst (ddc_get usrp2_master_clock (obj_string "gain") configured)
  = inl (invalid_argument "error getting: unknown key with name gain")
  /\ rx_set (obj_string "gain") (obj_size_t 1) configured
  = (inl (invalid_argument "error setting: unknown key with name gain"), configured)
  /\ tx_set (obj_string "stream_cmd") (obj_size_t 1) configured
  = (inl (invalid_argument "error setting: unknown key with name stream_cmd"), configured).
Proof.
  destruct (unknown_property_rejected usrp2_master_clock RefLibm.log true
              sample_id_send_stream_command sample_id_got_stream_command
              "gain" (obj_size_t 1) configured) as (Hrx & _ & _ & Htx).
  assert (H : ~ In "gain"%string ddc_others).
  { simpl. intros H.
    repeat (destruct H as [H | H]; [discriminate H|]). exact H. }
  destruct (Hrx H) as (Hget & Hset).
  split; [rewrite Hget; reflexivity|]. split; [exact Hset | exact Htx].
Defined.

(** ** Further runs on the sample device *)

(** X5 on the sample device: the key [decim] with 32 on both channels (the
    transmit channel rejects the key). *)
Lemma set_keeps_rates_allowed_witness :
  rates_allowed (snd (rx_set (obj_string "decim") (obj_size_t 32) configured))
  /\ rates_allowed (snd (tx_set (obj_string "decim") (obj_size_t 32) configured)).
Proof.
  apply (set_keeps_rates_allowed usrp2_master_clock RefLibm.log true
           sample_id_send_stream_command sample_id_got_stream_command).
  unfold rates_allowed. simpl. tauto.
Defined.

(** X6 on the sample device: at half the clock the rounding raises. *)
Lemma failed_freq_set_writes_no_register_witness :
  let f := B64.of_Z 50000000 in
  pokes (set_ddc_freq f configured) = pokes configured
  /\ ((exists expr, rounding_error = assert_throw_failed expr)
      /\ set_ddc_freq f configured = configured
      \/ rounding_error = rounding_error
         /\ set_ddc_freq f configured = set_ddc_freq f configured).
Proof.
  intros f.
  apply (proj1 (failed_freq_set_writes_no_register usrp2_master_clock RefLibm.log
                  true sample_id_send_stream_command sample_id_got_stream_command
                  f configured (set_ddc_freq f configured) rounding_error)).
  vm_compute. reflexivity.
Defined.

(** X7 on the sample device: minus a quarter of the clock. *)
Lemma successful_freq_set_agrees_with_register_witness :
  let st' := snd (rx_set (obj_string "freq") (obj_double (B64.of_Z (- 25000000)))
                    configured) in
  exists w, 0 <= w < 2 ^ 32
    /\ pokes st' = pokes configured ++ [(FR_DSP_RX_FREQ, w)]
    /\ peek32 FR_DSP_RX_FREQ st' = Some w
    /\ _ddc_freq st' = actual_freq usrp2_master_clock w
    /\ ddc_get usrp2_master_clock (obj_string "freq") st'
       = (inr (obj_double (actual_freq usrp2_master_clock w)), st')
    /\ st' = set_ddc_freq (actual_freq usrp2_master_clock w)
               (set_pokes (pokes configured ++ [(FR_DSP_RX_FREQ, w)]) configured).
Proof.
  intros st'.
  apply (successful_freq_set_agrees_with_register usrp2_master_clock true
           sample_id_send_stream_command sample_id_got_stream_command
           (B64.of_Z (- 25000000)) configured st').
  vm_compute. reflexivity.
Defined.

(** X8 on the sample device: minus a quarter of the clock is stored as
    a frequency that is not negative. *)
Lemma stored_freq_never_negative_witness :
  not_negative
    (_ddc_freq (snd (rx_set (obj_string "freq") (obj_double (B64.of_Z (- 25000000)))
                       configured))) = true.
Proof.
  apply (proj1 (stored_freq_never_negative usrp2_master_clock RefLibm.log true
                  sample_id_send_stream_command sample_id_got_stream_command
                  (B64.of_Z (- 25000000)) configured _ eq_refl)).
  vm_compute. reflexivity.
Defined.

(** X9 on the sample device: decimation 32. *)
Lemma set_rate_then_get_witness :
  let rx := snd (rx_set (obj_string "decim") (obj_size_t 32) configured) in
  fst (rx_set (obj_string "decim") (obj_size_t 32) configured) = inr tt
  /\ ddc_get usrp2_master_clock (obj_string "decim") rx = (inr (obj_size_t 32), rx)
  /\ ddc_get usrp2_master_clock (obj_string "bb_rate") rx
     = (inr (obj_double (B64.of_Z 3125000)), rx).
Proof.
  intros rx.
  assert (H : In 32%N (_allowed_decim_and_interp_rates configured))
    by (simpl; tauto).
  destruct (set_rate_then_get usrp2_master_clock RefLibm.log true
              sample_id_send_stream_command sample_id_got_stream_command
              32 configured H) as (H1 & H2 & H3 & _).
  split; [exact H1|]. split; [exact H2 | exact H3].
Defined.

(** X10 at a negative in-phase and a positive quadrature value. *)
Lemma iq_scale_word_round_trip_witness :
  let word := calculate_iq_scale_word (- 1) 1024 in
  0 <= word < 2 ^ 32
  /\ to_int16 (Z.shiftr word 16) = - 1
  /\ to_int16 (Z.land word 65535) = 1024.
Proof.
  apply (iq_scale_word_round_trip (- 1) 1024); split; vm_compute; congruence.
Defined.

(** X12 on the device whose allowed set holds 0. *)
Lemma set_interp_zero_raises_witness :
  tx_set (obj_string "interp") (obj_size_t 0) configured_with_zero
  = (inl rounding_error, set_duc_interp 0 configured_with_zero).
Proof.
  apply (set_interp_zero_raises usrp2_master_clock RefLibm.log configured_with_zero).
  simpl. tauto.
Defined.

(** X14 on the sample device with the reference logarithm. *)
Lemma tx_scale_band_witness :
  exists scale : Z,
    peek32 FR_DSP_TX_SCALE_IQ (snd (update_duc_config RefLibm.log configured))
    = Some (scale * 65536 + scale)
    /\ 2482 <= scale <= 4906
    /\ (scale = 2482 <-> exists k : N, cic_interp (_duc_interp configured) = (2 ^ k)%N).
Proof.
  exact (tx_scale_band RefLibm.log configured eq_refl ref_log2_exact_on_cubes).
Defined.

(** X15 on the sample device: a stop with five samples and a request for
    zero samples are one and the same request. *)
Lemma stream_cmd_encoding_kernel_witness :
  let stop := {| stream_mode := STREAM_MODE_STOP_CONTINUOUS; num_samps := 5;
                 stream_now := true; time_spec := {| secs := 7; ticks := 9 |} |} in
  let none := {| stream_mode := STREAM_MODE_NUM_SAMPS_AND_DONE; num_samps := 0;
                 stream_now := true; time_spec := {| secs := 7; ticks := 9 |} |} in
  encode_stream_cmd true sample_id_send_stream_command stop
  = encode_stream_cmd true sample_id_send_stream_command none.
Proof.
  intros stop none.
  apply (proj2 (stream_cmd_encoding_kernel true sample_id_send_stream_command
                  stop none
                  ltac:(unfold fits_request; simpl; lia)
                  ltac:(unfold fits_request; simpl; lia))).
  reflexivity.
Defined.

(** X16 on the sample device: the waiting reply acknowledges. *)
Lemma stream_cmd_accepted_iff_witness :
  let stop := stream_cmd_of_mode 0 true {| secs := 0; ticks := 0 |}
                STREAM_MODE_STOP_CONTINUOUS in
  fst (rx_stream_cmd stop powered_on) = inr tt.
Proof.
  intros stop.
  assert (H : Forall (fun r => 0 <= id r < 2 ^ 32) (ctrl_replies powered_on)).
  { simpl. constructor; [|constructor]. vm_compute. split; congruence. }
  destruct (stream_cmd_accepted_iff true sample_id_send_stream_command
              sample_id_got_stream_command stop powered_on H) as (Hacc & _).
  apply Hacc. exists sample_ack, []. split; reflexivity.
Defined.

(** X17 on the sample device: a rate set, a read, a set on the other
    channel and a frequency set. *)
Lemma calls_keep_rates_and_logs_witness :
  let cs := [call_ddc_set (obj_string "decim") (obj_size_t 32);
             call_ddc_get (obj_string "bb_rate");
             call_duc_set (obj_string "interp") (obj_size_t 64);
             call_ddc_set (obj_string "freq") (obj_double (B64.of_Z (- 25000000)))] in
  let st' := run_calls usrp2_master_clock RefLibm.log true
               sample_id_send_stream_command sample_id_got_stream_command
               cs configured in
  rates_allowed st'
  /\ _allowed_decim_and_interp_rates st' = sample_rates
  /\ exists l, pokes st' = pokes configured ++ l.
Proof.
  intros cs st'.
  assert (H : rates_allowed configured) by (unfold rates_allowed; simpl; tauto).
  destruct (calls_keep_rates_and_logs usrp2_master_clock RefLibm.log true
              sample_id_send_stream_command sample_id_got_stream_command
              cs configured H) as (H1 & H2 & _ & _ & H5 & _).
  split; [exact H1|]. split; [exact H2 | exact H5].
Defined.

(** X18 on the sample device, from power-on. *)
Lemma init_results_witness :
  fst (init_ddc_config true sample_id_send_stream_command
         sample_id_got_stream_command 0 true {| secs := 0; ticks := 0 |} powered_on)
  = inr tt
  /\ fst (init_duc_config RefLibm.log powered_on) = inr tt.
Proof.
  destruct (init_results RefLibm.log true sample_id_send_stream_command
              sample_id_got_stream_command 0 true {| secs := 0; ticks := 0 |}
              powered_on ref_log2_exact_on_cubes) as (H1 & H2).
  split; [rewrite H1; reflexivity | rewrite H2; reflexivity].
Defined.
